(** * ResearchChatbot: the PDF retrieval pipeline of [app.py]

    A shallow embedding of the chunker ([chunk_text]), the similarity
    ranking of [retrieve_relevant_chunks], and the per-user in-memory store
    [user_pdf_data] with the three handlers that touch it ([upload_pdf],
    [pdf_chat], [logout]), followed by the properties checked against the
    specification. Text extraction, the session decorators, the account
    and admin handlers and the decorated routes are embedded as well, with
    further properties of the code at the end. *)

From Stdlib Require Import ZArith QArith Lia.
From stdpp Require Import gmap strings list sorting.

Local Open Scope Z_scope.

(** ** Python sequences *)

Section Slicing.
Context {A : Type}.

(** [len(xs)] as a Python integer. *)
Definition len (xs : list A) : Z := Z.of_nat (length xs).

(** How a slice bound [i] is normalised against a sequence of length [n]:
    a negative bound counts from the end and is clamped at 0, any other
    bound is clamped at [n]. *)
Definition slice_index (n i : Z) : Z :=
  if i <? 0 then Z.max 0 (i + n) else Z.min i n.

(** [xs[start:stop]]. *)
Definition py_slice (xs : list A) (start stop : Z) : list A :=
  let lo := slice_index (len xs) start in
  let hi := slice_index (len xs) stop in
  take (Z.to_nat (hi - lo)) (drop (Z.to_nat lo) xs).

(** [xs[start:]]: the omitted bound is the length. *)
Definition py_slice_from (xs : list A) (start : Z) : list A :=
  py_slice xs start (len xs).
End Slicing.

(** ** The chunker *)

Section Chunker.
Context {char : Type}.

(** The [while] loop of [chunk_text], one iteration per unit of fuel.
    [None] means that the loop is still running when the fuel is spent. *)
Fixpoint chunk_loop (fuel : nat) (text : list char) (chunk_size overlap : Z)
    (start : Z) (chunks : list (list char)) : option (list (list char)) :=
  if start <? len text then
    match fuel with
    | O => None
    | S fuel' =>
        let end_ := start + chunk_size in
        let chunk := py_slice text start end_ in
        chunk_loop fuel' text chunk_size overlap (end_ - overlap) (chunks ++ [chunk])
    end
  else Some chunks.

Definition chunk_text (fuel : nat) (text : list char) (chunk_size overlap : Z)
    : option (list (list char)) :=
  chunk_loop fuel text chunk_size overlap 0 [].

(** The call [chunk_text(text)] of [upload_pdf], with the default
    parameters and fuel for one iteration per character. *)
Definition chunk_text_default (text : list char) : option (list (list char)) :=
  chunk_text (length text) text 1000 200.
End Chunker.

(** ** The similarity ranking *)

(** The array [similarities] of [retrieve_relevant_chunks] holds floats; a
    finite float is a rational number and is compared as one, so the array
    is a list of rationals here. [score sims i] is [similarities[i]]. *)
Definition score (sims : list Q) (i : nat) : Q := nth i sims 0%Q.

(** [np.argsort(similarities)] belongs to NumPy, not to this repository,
    and its default kind is not a stable sort. The ranking therefore takes
    the sort as a parameter [argsort], and what is assumed of it, where
    something is, is NumPy's contract: the result lists every position of
    the array once, in ascending order of the values. Nothing is assumed
    about the order of positions that hold equal values. *)
Definition argsort_spec (argsort : list Q -> list nat) : Prop :=
  forall sims : list Q,
    argsort sims ≡ₚ seq 0 (length sims) /\
    StronglySorted (fun a b => (score sims a <= score sims b)%Q) (argsort sims).

(** [np.argsort(similarities)[-top_k:][::-1]]. *)
Definition top_indices (argsort : list Q -> list nat) (sims : list Q)
    (top_k : Z) : list nat :=
  rev (py_slice_from (argsort sims) (- top_k)).

(** Two sorts that meet the contract and differ on equal values. The first
    is an insertion sort, as NumPy's generic sort code runs on short
    arrays, which leaves positions of equal value in increasing order; the
    second leaves them in decreasing order, as other builds of NumPy do. *)
Fixpoint insert_index (sims : list Q) (i : nat) (sorted : list nat) : list nat :=
  match sorted with
  | [] => [i]
  | j :: rest =>
      if Qle_bool (score sims i) (score sims j) then i :: sorted
      else j :: insert_index sims i rest
  end.

Definition insertion_argsort (sims : list Q) : list nat :=
  foldr (insert_index sims) [] (seq 0 (length sims)).

Definition reversed_ties_argsort (sims : list Q) : list nat :=
  rev (insertion_argsort (map Qopp sims)).

(** The order the insertion sort puts positions in: by value, and by
    position among equal values. *)
Definition sorts_before (sims : list Q) (a b : nat) : Prop :=
  (score sims a < score sims b)%Q \/
  ((score sims a == score sims b)%Q /\ (a < b)%nat).

(** ** The per-user store and its handlers *)

(** What the embedding provider does when [get_embeddings] calls it: the
    call raises, or it answers with a list of vectors. *)
Inductive provider_reply (vec : Type) : Type :=
  | Raised
  | Data (vectors : list vec).
Arguments Raised {vec}.
Arguments Data {vec} vectors.

(** One value of [user_pdf_data]. *)
Record pdf_data (char vec : Type) : Type := PdfData {
  chunks : list (list char);
  embeddings : list vec;
  loaded : bool
}.
Arguments PdfData {char vec} chunks embeddings loaded.
Arguments chunks {char vec} p.
Arguments embeddings {char vec} p.
Arguments loaded {char vec} p.

(** What [upload_pdf] answers. [UploadUnfinished] stands for a chunking loop
    that has not returned; [chunk_text_default_total] shows it never occurs.
    [UploadException] is the answer of the handler's [except] clause. *)
Inductive upload_result : Type :=
  | ExtractionEmpty
  | EmbeddingFailed
  | UploadUnfinished
  | UploadException
  | Uploaded (chunk_count : nat).

(** What [pdf_chat] has in hand once retrieval is over: one of its error
    answers, or the chunks that go into the prompt. *)
Inductive chat_result (char : Type) : Type :=
  | NoDocumentLoaded
  | NoMessage
  | NothingRetrieved
  | ChatException
  | Retrieved (relevant_chunks : list (list char)).
Arguments NoDocumentLoaded {char}.
Arguments NoMessage {char}.
Arguments NothingRetrieved {char}.
Arguments ChatException {char}.
Arguments Retrieved {char} relevant_chunks.

(** The requests that reach the store. Each carries what the embedding
    provider replies while the request is served. *)
Inductive op (char vec : Type) : Type :=
  | LoadDocument (user_id : string) (text : list char) (reply : provider_reply vec)
  | Query (user_id : string) (query : list char) (reply : provider_reply vec)
  | Logout (user_id : option string).
Arguments LoadDocument {char vec} user_id text reply.
Arguments Query {char vec} user_id query reply.
Arguments Logout {char vec} user_id.

Section Retrieval.
Context {char vec : Type}.

(** [str.isspace] on one character. *)
Variable isspace : char -> bool.

(** The similarity of a query vector and a stored vector, as scikit-learn's
    [cosine_similarity] computes it. *)
Variable cosine_similarity : vec -> vec -> Q.

(** The number of components of a vector. *)
Variable dim : vec -> nat.

(** NumPy's [argsort]. *)
Variable argsort : list Q -> list nat.

(** [user_pdf_data]: a dict from user id to that user's chunks and
    embeddings. *)
Abbreviation store := (gmap string (pdf_data char vec)).

(** [get_embeddings]: the provider's vectors, or [None] when the call
    raised. *)
Definition get_embeddings (reply : provider_reply vec) : option (list vec) :=
  match reply with
  | Raised => None
  | Data vectors => Some vectors
  end.

(** [not embeddings], for [None] and for the empty list. *)
Definition falsy (embeddings : option (list vec)) : bool :=
  match embeddings with
  | None | Some [] => true
  | Some (_ :: _) => false
  end.

(** [not text.strip()]. *)
Definition blank (text : list char) : bool := forallb isspace text.

(** [np.array(embeddings)]: a two-dimensional array when the vectors all
    have one length; on vectors of different lengths NumPy raises. *)
Definition np_array (embeddings : list vec) : option (list vec) :=
  match embeddings with
  | [] => Some []
  | first :: others =>
      if forallb (fun v => (dim v =? dim first)%nat) others
      then Some embeddings
      else None
  end.

(** [upload_pdf], from the extracted text on. *)
Definition upload_pdf (s : store) (user_id : string) (text : list char)
    (reply : provider_reply vec) : store * upload_result :=
  if blank text then (s, ExtractionEmpty)
  else
    match chunk_text_default text with
    | None => (s, UploadUnfinished)
    | Some chunks =>
        let embeddings := get_embeddings reply in
        if falsy embeddings then (s, EmbeddingFailed)
        else
          match np_array (default [] embeddings) with
          | None => (s, UploadException)
          | Some embeddings_array =>
              (<[user_id := PdfData chunks embeddings_array true]> s,
               Uploaded (length chunks))
          end
    end.

(** [topK]: the ranking step on a query vector and a corpus. *)
Definition topK (query : vec) (corpus : list vec) (k : Z) : list nat :=
  top_indices argsort (map (cosine_similarity query) corpus) k.

(** [cosine_similarity(query_embedding, pdf_data['embeddings'])[0]]:
    scikit-learn raises when the query has no component, or another number
    of components than the stored rows. *)
Definition query_similarities (query : vec) (rows : list vec)
    : option (list Q) :=
  if (dim query =? 0)%nat ||
     negb (forallb (fun row => (dim row =? dim query)%nat) rows)
  then None
  else Some (map (cosine_similarity query) rows).

(** [retrieve_relevant_chunks]. [None] is an exception: the one
    scikit-learn raises, or the [IndexError] of [pdf_data['chunks'][i]]. *)
Definition retrieve_relevant_chunks (s : store) (user_id : string)
    (top_k : Z) (reply : provider_reply vec) : option (list (list char)) :=
  match s !! user_id with
  | None => Some []
  | Some pdf_data =>
      if negb (loaded pdf_data) || (length (embeddings pdf_data) =? 0)%nat
      then Some []
      else
        match get_embeddings reply with
        | None | Some [] => Some []
        | Some (query_embedding :: _) =>
            match query_similarities query_embedding (embeddings pdf_data) with
            | None => None
            | Some similarities =>
                mapM (fun i => chunks pdf_data !! i)
                     (top_indices argsort similarities top_k)
            end
        end
  end.

(** [pdf_chat], up to the point where the retrieved chunks are joined
    into the prompt. It hands the store back as it received it. *)
Definition pdf_chat (s : store) (user_id : string) (query : list char)
    (reply : provider_reply vec) : store * chat_result char :=
  match s !! user_id with
  | None => (s, NoDocumentLoaded)
  | Some pdf_data =>
      if negb (loaded pdf_data) then (s, NoDocumentLoaded)
      else
        match query with
        | [] => (s, NoMessage)
        | _ :: _ =>
            match retrieve_relevant_chunks s user_id 3 reply with
            | None => (s, ChatException)
            | Some [] => (s, NothingRetrieved)
            | Some relevant_chunks => (s, Retrieved relevant_chunks)
            end
        end
  end.

(** [logout]: [session.get('user_id')] may be absent, and an empty id is
    falsy. *)
Definition logout (s : store) (user_id : option string) : store :=
  match user_id with
  | Some u =>
      if negb (String.eqb u "") && bool_decide (is_Some (s !! u))
      then delete u s
      else s
  | None => s
  end.

(** One request, and a sequence of requests, on the store. *)
Definition step (s : store) (o : op char vec) : store :=
  match o with
  | LoadDocument user_id text reply => (upload_pdf s user_id text reply).1
  | Query user_id query reply => (pdf_chat s user_id query reply).1
  | Logout user_id => logout s user_id
  end.

Definition run (s : store) (ops : list (op char vec)) : store :=
  foldl step s ops.

(** The user whose entry a request may write, if any. *)
Definition op_target (o : op char vec) : option string :=
  match o with
  | LoadDocument user_id _ _ => Some user_id
  | Query _ _ _ => None
  | Logout user_id => user_id
  end.

(** The embedder's contract: a reply that is not a failure has one vector
    per text of the batch. *)
Definition one_per_text (batch : nat) (reply : provider_reply vec) : bool :=
  match reply with
  | Raised => true
  | Data vectors => (length vectors =? batch)%nat
  end.

Definition honours_contract (o : op char vec) : bool :=
  match o with
  | LoadDocument _ text reply =>
      match chunk_text_default text with
      | Some chunks => one_per_text (length chunks) reply
      | None => true
      end
  | Query _ _ reply => one_per_text 1 reply
  | Logout _ => true
  end.

(** A [loadDocument] for [u] that succeeds in store [s]. *)
Definition loads_for (u : string) (s : store) (o : op char vec) : bool :=
  match o with
  | LoadDocument user_id text reply =>
      String.eqb user_id u &&
      match (upload_pdf s user_id text reply).2 with
      | Uploaded _ => true
      | _ => false
      end
  | _ => false
  end.

(** No request of [ops], run from [s], is a successful [loadDocument]
    for [u]. *)
Fixpoint never_loaded (u : string) (s : store) (ops : list (op char vec)) : bool :=
  match ops with
  | [] => true
  | o :: ops' => negb (loads_for u s o) && never_loaded u (step s o) ops'
  end.

(** Every entry of the store pairs as many chunks as vectors. *)
Definition length_matched (s : store) : Prop :=
  map_Forall (fun _ d => length (chunks d) = length (embeddings d)) s.
End Retrieval.

(** ** Instances for closed examples *)

(** Texts of 8-bit characters, with Python's whitespace in that range. *)
Definition ascii_isspace (c : Ascii.ascii) : bool :=
  let n := Ascii.nat_of_ascii c in
  ((9 <=? n) && (n <=? 13) || (28 <=? n) && (n <=? 32) ||
   (n =? 133) || (n =? 160))%nat.

Definition text_of (s : string) : list Ascii.ascii := String.list_ascii_of_string s.

(** The provider's vectors have norm 1, on which the cosine is the dot
    product. *)
Fixpoint dot (a b : list Q) : Q :=
  match a, b with
  | x :: a', y :: b' => (x * y + dot a' b')%Q
  | _, _ => 0%Q
  end.

(** The number of components of a vector given as a list. *)
Definition vec_dim (v : list Q) : nat := length v.

(** A store in which alice has uploaded one document, and a run of
    requests by two users. *)
Definition alice_store : gmap string (pdf_data Ascii.ascii (list Q)) :=
  (upload_pdf ascii_isspace vec_dim ∅ "alice" (text_of "first document")
     (Data [[1; 0]%Q])).1.

Definition sample_ops : list (op Ascii.ascii (list Q)) :=
  [ Query "alice" (text_of "anything there?") (Data [[1; 0]%Q]);
    LoadDocument "bob" (text_of "bob's notes") (Data [[0; 1]%Q]);
    LoadDocument "alice" (text_of "first document") Raised;
    Query "bob" (text_of "notes?") (Data [[0; 1]%Q]);
    Logout (Some "alice") ].

(** A store in which alice's document was cut into two chunks. *)
Definition two_chunk_store : gmap string (pdf_data Ascii.ascii (list Q)) :=
  <["alice" := PdfData [text_of "chunk zero"; text_of "chunk one"]
                       [[1; 0]%Q; [0; 1]%Q] true]> ∅.

(** ** Text extraction and the upload handler *)

(** What the client sent under the form field [pdf]: a file name, and the
    text PyPDF2 extracts from each page, or [None] when reading the file
    raises. *)
Record pdf_upload (char : Type) : Type := PdfUpload {
  pdf_filename : string;
  pdf_pages : option (list (list char))
}.
Arguments PdfUpload {char} pdf_filename pdf_pages.
Arguments pdf_filename {char} p.
Arguments pdf_pages {char} p.

(** What [upload_pdf] answers when the request is looked at as a whole. *)
Inductive upload_response : Type :=
  | NoPdfProvided
  | NoFileSelected
  | ProcessingError
  | Processed (result : upload_result).

(** What a decorated route answers: the decorator's refusal, or what the
    route itself returned. *)
Inductive guarded (A : Type) : Type :=
  | Rejected (status : Z)
  | Served (answer : A).
Arguments Rejected {A} status.
Arguments Served {A} answer.

(** The Flask [session] of one client. The handlers write four keys, each
    with values of one type; a key that is not in the session is [None]. *)
Record session_data : Type := Session {
  session_user_id : option string;
  session_username : option string;
  session_admin : option bool;
  session_admin_username : option string
}.

(** [session.clear()]. *)
Definition empty_session : session_data := Session None None None None.

(** [require_auth]: the route runs only when [user_id] is in the session;
    the route then reads [session['user_id']], which is passed to it here. *)
Definition require_auth {A : Type} (session : session_data) (f : string -> A)
    : guarded A :=
  match session_user_id session with
  | None => Rejected 401
  | Some user_id => Served (f user_id)
  end.

(** [require_admin]: the route runs only when [admin] is in the session and
    is true. *)
Definition require_admin {A : Type} (session : session_data) (f : A) : guarded A :=
  match session_admin session with
  | Some true => Served f
  | _ => Rejected 403
  end.

(** [str.strip()] on strings of 8-bit characters. *)
Fixpoint lstrip_chars (cs : list Ascii.ascii) : list Ascii.ascii :=
  match cs with
  | [] => []
  | c :: cs' => if ascii_isspace c then lstrip_chars cs' else cs
  end.

Definition strip (s : string) : string :=
  String.string_of_list_ascii
    (rev (lstrip_chars (rev (lstrip_chars (String.list_ascii_of_string s))))).

(** [admin_login]: the answer is [true] for the success message and [false]
    for the 401. *)
Definition admin_login (session : session_data) (username password : string)
    : session_data * bool :=
  let username := strip username in
  if String.eqb username "admin" && String.eqb password "admin" then
    (Session (session_user_id session) (session_username session)
             (Some true) (Some "admin"), true)
  else (session, false).

(** [admin_logout]: the two [session.pop] calls. *)
Definition admin_logout (session : session_data) : session_data :=
  Session (session_user_id session) (session_username session) None None.

(** ** Accounts *)

(** A document of [users_collection]. *)
Record user_doc : Type := UserDoc {
  doc_id : string;
  doc_username : string;
  doc_email : string;
  doc_password_hash : string;
  doc_created_at : Z
}.

(** [find_one] on a collection kept in insertion order. *)
Definition find_one (filter : user_doc -> bool) (collection : list user_doc)
    : option user_doc :=
  find filter collection.

Inductive signup_result : Type :=
  | AllFieldsRequired
  | PasswordTooShort
  | AlreadyExists
  | DuplicateKey
  | SignedUp (user_id username : string).

Inductive login_result : Type :=
  | CredentialsRequired
  | InvalidCredentials
  | LoggedIn (user_id username : string).

Section Accounts.
(** Werkzeug's [generate_password_hash], as a function of the password and
    of the salt it draws, and [check_password_hash]. *)
Variable generate_password_hash : string -> string -> string.
Variable check_password_hash : string -> string -> bool.

(** [signup]. [new_id] is the [uuid4] drawn for the user, [salt] the salt
    drawn for the hash and [now] the clock. [DuplicateKey] is the error
    [insert_one] raises for an [_id] that is already in the collection. *)
Definition signup (session : session_data) (users : list user_doc)
    (username email password new_id salt : string) (now : Z)
    : session_data * list user_doc * signup_result :=
  let username := strip username in
  let email := strip email in
  if String.eqb username "" || String.eqb email "" || String.eqb password "" then
    (session, users, AllFieldsRequired)
  else if (String.length password <? 6)%nat then
    (session, users, PasswordTooShort)
  else
    match find_one (fun d => String.eqb (doc_username d) username ||
                             String.eqb (doc_email d) email) users with
    | Some _ => (session, users, AlreadyExists)
    | None =>
        let password_hash := generate_password_hash password salt in
        let user_doc := UserDoc new_id username email password_hash now in
        match find_one (fun d => String.eqb (doc_id d) new_id) users with
        | Some _ => (session, users, DuplicateKey)
        | None =>
            (Session (Some new_id) (Some username)
                     (session_admin session) (session_admin_username session),
             users ++ [user_doc],
             SignedUp new_id username)
        end
    end.

(** [login]. *)
Definition login (session : session_data) (users : list user_doc)
    (username password : string) : session_data * login_result :=
  let username := strip username in
  if String.eqb username "" || String.eqb password "" then
    (session, CredentialsRequired)
  else
    match find_one (fun d => String.eqb (doc_username d) username) users with
    | None => (session, InvalidCredentials)
    | Some user =>
        if check_password_hash (doc_password_hash user) password then
          (Session (Some (doc_id user)) (Some (doc_username user))
                   (session_admin session) (session_admin_username session),
           LoggedIn (doc_id user) (doc_username user))
        else (session, InvalidCredentials)
    end.

(** The sign-up requests that reach the collection, from any client. *)
Record signup_request : Type := SignupRequest {
  req_session : session_data;
  req_username : string;
  req_email : string;
  req_password : string;
  req_new_id : string;
  req_salt : string;
  req_now : Z
}.

Definition signup_users (users : list user_doc) (r : signup_request)
    : list user_doc :=
  (signup (req_session r) users (req_username r) (req_email r)
          (req_password r) (req_new_id r) (req_salt r) (req_now r)).1.2.

Definition signups (users : list user_doc) (rs : list signup_request)
    : list user_doc :=
  foldl signup_users users rs.

(** No two documents share an id, a user name or an email, and no user
    name or email is empty. *)
Definition users_distinct (users : list user_doc) : Prop :=
  NoDup (map doc_id users) /\
  NoDup (map doc_username users) /\
  NoDup (map doc_email users) /\
  Forall (fun d => doc_username d <> "" /\ doc_email d <> "") users.
End Accounts.

Section Routes.
Context {char vec : Type}.
Variable isspace : char -> bool.
Variable cosine_similarity : vec -> vec -> Q.
Variable dim : vec -> nat.
Variable argsort : list Q -> list nat.

(** The character ["\n"]. *)
Variable newline : char.

(** [extract_text_from_pdf], on the texts of the pages. *)
Definition extract_text_from_pdf (pages : list (list char)) : list char :=
  fold_left (fun text page => text ++ (page ++ [newline])) pages [].

(** The body of [upload_pdf]: the checks on the request, the extraction,
    and the steps from the extracted text on. An exception of the
    extraction is caught and answered. *)
Definition upload_pdf_handler (s : gmap string (pdf_data char vec))
    (user_id : string) (file : option (pdf_upload char))
    (reply : provider_reply vec)
    : gmap string (pdf_data char vec) * upload_response :=
  match file with
  | None => (s, NoPdfProvided)
  | Some pdf_file =>
      if String.eqb (pdf_filename pdf_file) "" then (s, NoFileSelected)
      else
        match pdf_pages pdf_file with
        | None => (s, ProcessingError)
        | Some pages =>
            let text := extract_text_from_pdf pages in
            let (s', result) := upload_pdf isspace dim s user_id text reply in
            (s', Processed result)
        end
  end.

(** The routes [/api/pdf/upload], [/api/pdf/chat] and [/api/auth/logout],
    on the client's session and the store. *)
Definition upload_pdf_route (session : session_data)
    (s : gmap string (pdf_data char vec)) (file : option (pdf_upload char))
    (reply : provider_reply vec)
    : gmap string (pdf_data char vec) * guarded upload_response :=
  match require_auth session
          (fun user_id => upload_pdf_handler s user_id file reply) with
  | Rejected status => (s, Rejected status)
  | Served (s', response) => (s', Served response)
  end.

Definition pdf_chat_route (session : session_data)
    (s : gmap string (pdf_data char vec)) (query : list char)
    (reply : provider_reply vec)
    : gmap string (pdf_data char vec) * guarded (chat_result char) :=
  match require_auth session
          (fun user_id => pdf_chat cosine_similarity dim argsort s user_id query reply) with
  | Rejected status => (s, Rejected status)
  | Served (s', result) => (s', Served result)
  end.

Definition logout_route (session : session_data)
    (s : gmap string (pdf_data char vec))
    : session_data * gmap string (pdf_data char vec) :=
  (empty_session, logout s (session_user_id session)).
End Routes.

(** ** One client's requests *)

(** The requests one client sends, with what the embedding provider, the
    clock and the random sources give while each is served. *)
Inductive request (char vec : Type) : Type :=
  | SignupReq (username email password new_id salt : string) (now : Z)
  | LoginReq (username password : string)
  | LogoutReq
  | AdminLoginReq (username password : string)
  | AdminLogoutReq
  | UploadReq (file : option (pdf_upload char)) (reply : provider_reply vec)
  | ChatReq (query : list char) (reply : provider_reply vec).
Arguments SignupReq {char vec} username email password new_id salt now.
Arguments LoginReq {char vec} username password.
Arguments LogoutReq {char vec}.
Arguments AdminLoginReq {char vec} username password.
Arguments AdminLogoutReq {char vec}.
Arguments UploadReq {char vec} file reply.
Arguments ChatReq {char vec} query reply.

(** The client's session, [users_collection] and [user_pdf_data]. *)
Record app_state (char vec : Type) : Type := AppState {
  st_session : session_data;
  st_users : list user_doc;
  st_store : gmap string (pdf_data char vec)
}.
Arguments AppState {char vec} st_session st_users st_store.
Arguments st_session {char vec} a.
Arguments st_users {char vec} a.
Arguments st_store {char vec} a.

Section Client.
Context {char vec : Type}.
Variable isspace : char -> bool.
Variable cosine_similarity : vec -> vec -> Q.
Variable dim : vec -> nat.
Variable argsort : list Q -> list nat.
Variable newline : char.
Variable generate_password_hash : string -> string -> string.
Variable check_password_hash : string -> string -> bool.

Definition handle (st : app_state char vec) (r : request char vec)
    : app_state char vec :=
  match r with
  | SignupReq username email password new_id salt now =>
      let '(session, users, _) :=
        signup generate_password_hash (st_session st) (st_users st)
               username email password new_id salt now in
      AppState session users (st_store st)
  | LoginReq username password =>
      AppState (login check_password_hash (st_session st) (st_users st)
                      username password).1
               (st_users st) (st_store st)
  | LogoutReq =>
      let (session, s) := logout_route (st_session st) (st_store st) in
      AppState session (st_users st) s
  | AdminLoginReq username password =>
      AppState (admin_login (st_session st) username password).1
               (st_users st) (st_store st)
  | AdminLogoutReq =>
      AppState (admin_logout (st_session st)) (st_users st) (st_store st)
  | UploadReq file reply =>
      AppState (st_session st) (st_users st)
               (upload_pdf_route isspace dim newline (st_session st) (st_store st)
                                 file reply).1
  | ChatReq query reply =>
      AppState (st_session st) (st_users st)
               (pdf_chat_route cosine_similarity dim argsort (st_session st) (st_store st)
                               query reply).1
  end.

Definition serve (st : app_state char vec) (rs : list (request char vec))
    : app_state char vec :=
  foldl handle st rs.

(** Some request of [rs] is an admin login with the admin credentials. *)
Definition admin_password_given (rs : list (request char vec)) : bool :=
  existsb (fun r =>
             match r with
             | AdminLoginReq username password =>
                 String.eqb (strip username) "admin" && String.eqb password "admin"
             | _ => false
             end) rs.

(** No request of [rs] is a sign-up or a login. *)
Definition stays_anonymous (rs : list (request char vec)) : bool :=
  forallb (fun r =>
             match r with
             | SignupReq _ _ _ _ _ _ | LoginReq _ _ => false
             | _ => true
             end) rs.

(** The session's user id, when there is one, is the id of a document of
    the collection. *)
Definition session_registered (st : app_state char vec) : Prop :=
  forall uid, session_user_id (st_session st) = Some uid ->
              exists d, d ∈ st_users st /\ doc_id d = uid.
End Client.

(** ** More instances for closed examples *)

Definition newline_ascii : Ascii.ascii := Ascii.ascii_of_nat 10.

(** A stand-in for the hashing pair: the hash is the salt, a separator and
    the password, and checking compares what follows the separator. *)
Definition sample_hash (password salt : string) : string :=
  String.append salt (String.append "$" password).

Fixpoint after_separator (hash : string) : string :=
  match hash with
  | EmptyString => EmptyString
  | String c rest =>
      if Ascii.eqb c (Ascii.ascii_of_nat 36) then rest else after_separator rest
  end.

Definition sample_check (hash password : string) : bool :=
  String.eqb (after_separator hash) password.

Definition alice_session : session_data :=
  Session (Some "alice") (Some "Alice") None None.

Definition ann_signup : signup_request :=
  SignupRequest empty_session " ann " "ann@example.org" "secret1" "id-1" "s1" 100.

Definition ben_signup : signup_request :=
  SignupRequest empty_session "ben" "ben@example.org" "secret2" "id-2" "s2" 200.

(** A visitor's requests, none of them a sign-up or a login. *)
Definition visitor_requests : list (request Ascii.ascii (list Q)) :=
  [ UploadReq (Some (PdfUpload "a.pdf" (Some [text_of "page one"])))
              (Data [[1; 0]%Q]);
    ChatReq (text_of "what is it about?") (Data [[1; 0]%Q]);
    AdminLoginReq "admin" "guess";
    LogoutReq ].

(** A client that signs up, uploads, becomes admin and logs out. *)
Definition member_requests : list (request Ascii.ascii (list Q)) :=
  [ SignupReq " ann " "ann@example.org" "secret1" "id-1" "s1" 100;
    UploadReq (Some (PdfUpload "a.pdf" (Some [text_of "page one"])))
              (Data [[1; 0]%Q]);
    AdminLoginReq " admin" "admin";
    LoginReq "ann" "secret1" ].

(** ** Facts about slices and the chunking loop *)

Section ChunkerFacts.
Context {char : Type}.
Implicit Types (text : list char) (chunks : list (list char)).

Lemma slice_index_zero n : 0 <= n -> slice_index n 0 = 0.
Proof. intros Hn. unfold slice_index. simpl. lia. Qed.

Lemma slice_index_beyond n i : 0 <= n <= i -> slice_index n i = n.
Proof.
  intros Hn. unfold slice_index.
  destruct (Z.ltb_spec i 0); lia.
Qed.

Lemma len_nonneg text : 0 <= len text.
Proof. unfold len. lia. Qed.

(** A slice from 0 whose upper bound reaches the end is the whole text. *)
Lemma py_slice_whole text stop : len text <= stop -> py_slice text 0 stop = text.
Proof.
  intros Hstop. pose proof (len_nonneg text) as Hn. unfold py_slice.
  rewrite slice_index_zero, slice_index_beyond by lia.
  rewrite Z.sub_0_r. unfold len. rewrite Nat2Z.id. simpl.
  apply firstn_all.
Qed.

Lemma chunk_loop_done fuel text cs ov start chunks :
  len text <= start -> chunk_loop fuel text cs ov start chunks = Some chunks.
Proof.
  intros Hge. destruct fuel; simpl;
    destruct (Z.ltb_spec start (len text)); (lia || reflexivity).
Qed.

Lemma chunk_loop_step fuel text cs ov start chunks :
  start < len text ->
  chunk_loop (S fuel) text cs ov start chunks =
  chunk_loop fuel text cs ov (start + cs - ov)
    (chunks ++ [py_slice text start (start + cs)]).
Proof.
  intros Hlt. simpl. destruct (Z.ltb_spec start (len text)); [reflexivity | lia].
Qed.

(** The accumulator is only ever extended at its end. *)
Lemma chunk_loop_acc fuel text cs ov start chunks :
  chunk_loop fuel text cs ov start chunks =
  (fun r => chunks ++ r) <$> chunk_loop fuel text cs ov start [].
Proof.
  revert start chunks. induction fuel as [|fuel IH]; intros start chunks.
  - simpl. destruct (start <? len text); simpl; [reflexivity|].
    now rewrite app_nil_r.
  - destruct (Z.lt_ge_cases start (len text)) as [Hlt|Hge].
    + rewrite !chunk_loop_step by assumption.
      rewrite (IH _ (chunks ++ _)), (IH _ ([] ++ _)).
      destruct (chunk_loop fuel text cs ov (start + cs - ov) []); simpl;
        [|reflexivity].
      now rewrite <- app_assoc.
    + rewrite !chunk_loop_done by assumption. simpl. now rewrite app_nil_r.
Qed.

(** With [overlap >= chunk_size] the start offset never moves forward, so
    on a text that has a character left to read the loop never exits. *)
Lemma chunk_loop_stuck fuel text cs ov start chunks :
  cs <= ov -> start < len text ->
  chunk_loop fuel text cs ov start chunks = None.
Proof.
  intros Hov. revert start chunks.
  induction fuel as [|fuel IH]; intros start chunks Hlt.
  - simpl. destruct (Z.ltb_spec start (len text)); [reflexivity | lia].
  - rewrite chunk_loop_step by assumption. apply IH. lia.
Qed.

(** With [overlap < chunk_size] every iteration advances the start offset,
    and one unit of fuel per remaining character is enough. *)
Lemma chunk_loop_terminates fuel text cs ov start chunks :
  ov < cs -> (Z.to_nat (len text - start) <= fuel)%nat ->
  is_Some (chunk_loop fuel text cs ov start chunks).
Proof.
  intros Hov. revert start chunks.
  induction fuel as [|fuel IH]; intros start chunks Hfuel.
  - rewrite chunk_loop_done by lia. eauto.
  - destruct (Z.lt_ge_cases start (len text)) as [Hlt|Hge].
    + rewrite chunk_loop_step by assumption. apply IH. lia.
    + rewrite chunk_loop_done by assumption. eauto.
Qed.

(** More fuel never changes a result that was already reached. *)
Lemma chunk_loop_fuel_mono fuel fuel' text cs ov start chunks r :
  chunk_loop fuel text cs ov start chunks = Some r -> (fuel <= fuel')%nat ->
  chunk_loop fuel' text cs ov start chunks = Some r.
Proof.
  revert fuel' start chunks.
  induction fuel as [|fuel IH]; intros fuel' start chunks Hr Hle.
  - simpl in Hr. destruct (Z.ltb_spec start (len text)); [discriminate|].
    rewrite chunk_loop_done by assumption. exact Hr.
  - destruct fuel' as [|fuel']; [lia|].
    destruct (Z.lt_ge_cases start (len text)) as [Hlt|Hge].
    + rewrite chunk_loop_step in * by assumption. apply IH; [exact Hr | lia].
    + rewrite chunk_loop_done in * by assumption. exact Hr.
Qed.

Lemma chunk_text_never_returns fuel text cs ov :
  cs <= ov -> text <> [] -> chunk_text fuel text cs ov = None.
Proof.
  intros Hov Hne. apply chunk_loop_stuck; [exact Hov|].
  destruct text; [congruence|]. unfold len. cbn [length]. lia.
Qed.

Lemma chunk_text_empty fuel cs ov : chunk_text fuel (@nil char) cs ov = Some [].
Proof. unfold chunk_text. now rewrite chunk_loop_done. Qed.

(** The first chunk of a non-empty text shorter than [chunk_size] is the
    whole text; the loop then goes on from offset [chunk_size - overlap]. *)
Lemma chunk_text_short fuel text cs ov :
  0 < len text -> len text <= cs ->
  chunk_text (S fuel) text cs ov =
  (fun r => text :: r) <$> chunk_loop fuel text cs ov (cs - ov) [].
Proof.
  intros Hne Hshort. unfold chunk_text.
  rewrite chunk_loop_step by assumption. simpl.
  rewrite py_slice_whole by lia. apply chunk_loop_acc.
Qed.

(** The default parameters always let the loop finish. *)
Lemma chunk_text_default_total text : is_Some (chunk_text_default text).
Proof.
  unfold chunk_text_default, chunk_text.
  apply chunk_loop_terminates; [lia|]. unfold len. lia.
Qed.

(** A non-empty text yields at least one chunk. *)
Lemma chunk_text_default_nonempty text chunks :
  text <> [] -> chunk_text_default text = Some chunks -> chunks <> [].
Proof.
  intros Hne. unfold chunk_text_default, chunk_text.
  destruct text as [|c text]; [congruence|]. clear Hne.
  cbn [length]. rewrite chunk_loop_step by (unfold len; cbn [length]; lia).
  rewrite chunk_loop_acc.
  destruct (chunk_loop _ _ _ _ _ []); simpl; [|discriminate].
  intros [= <-]. discriminate.
Qed.
End ChunkerFacts.

(** ** Facts about the ranking *)

Section RankerFacts.
Implicit Types (sims : list Q) (l : list nat).

Lemma insert_index_perm sims i l : insert_index sims i l ≡ₚ i :: l.
Proof.
  induction l as [|j l IH]; simpl; [reflexivity|].
  destruct (Qle_bool _ _); [reflexivity|].
  rewrite IH. apply perm_swap.
Qed.

(** Inserting a position smaller than all those already placed keeps the
    list in order. *)
Lemma insert_index_sorted sims i l :
  StronglySorted (sorts_before sims) l ->
  Forall (fun j => (i < j)%nat) l ->
  StronglySorted (sorts_before sims) (insert_index sims i l).
Proof.
  induction l as [|j l IH]; intros Hsorted Hlt; simpl.
  - repeat constructor.
  - apply StronglySorted_cons in Hsorted as [Hj Hsorted].
    apply Forall_cons in Hlt as [Hij Hlt].
    destruct (Qle_bool (score sims i) (score sims j)) eqn:Hle.
    + apply Qle_bool_iff, Qle_lteq in Hle.
      assert (Hi : sorts_before sims i j)
        by (destruct Hle; [left | right]; auto).
      apply StronglySorted_cons. split.
      * constructor; [exact Hi|].
        rewrite Forall_forall in Hj, Hlt |- *. intros x Hx.
        specialize (Hj x Hx). specialize (Hlt x Hx).
        destruct Hle as [Hle|Heq], Hj as [Hj|[Hj Hjx]].
        -- left. eapply Qlt_trans; eassumption.
        -- left. now rewrite <- Hj.
        -- left. now rewrite Heq.
        -- right. split; [now rewrite Heq|assumption].
      * apply StronglySorted_cons. auto.
    + assert (Hji : (score sims j < score sims i)%Q).
      { apply Qnot_le_lt. intros H%Qle_bool_iff. congruence. }
      apply StronglySorted_cons. split; [|auto].
      rewrite insert_index_perm. constructor; [now left | exact Hj].
Qed.

Lemma argsort_from sims start n :
  foldr (insert_index sims) [] (seq start n) ≡ₚ seq start n /\
  StronglySorted (sorts_before sims)
    (foldr (insert_index sims) [] (seq start n)).
Proof.
  revert start. induction n as [|n IH]; intros start; simpl.
  - split; [reflexivity | constructor].
  - destruct (IH (S start)) as [Hperm Hsorted]. split.
    + now rewrite insert_index_perm, Hperm.
    + apply insert_index_sorted; [exact Hsorted|].
      rewrite Hperm. apply Forall_forall. intros j Hj%elem_of_seq. lia.
Qed.

Lemma insertion_argsort_perm sims : insertion_argsort sims ≡ₚ seq 0 (length sims).
Proof. apply argsort_from. Qed.

Lemma insertion_argsort_sorted sims :
  StronglySorted (sorts_before sims) (insertion_argsort sims).
Proof. apply argsort_from. Qed.


Lemma py_slice_sublist {A} (xs : list A) start stop :
  py_slice xs start stop `sublist_of` xs.
Proof.
  unfold py_slice. etransitivity; [apply sublist_take | apply sublist_drop].
Qed.

Lemma sublist_sorted {A} (R : relation A) (xs ys : list A) :
  xs `sublist_of` ys -> StronglySorted R ys -> StronglySorted R xs.
Proof.
  induction 1 as [|x xs ys Hsub IH|x xs ys Hsub IH]; intros Hsorted.
  - constructor.
  - apply StronglySorted_cons in Hsorted as [Hx Hsorted].
    apply StronglySorted_cons. split; [|auto].
    rewrite Forall_forall in Hx |- *. intros y Hy. apply Hx.
    eapply elem_of_sublist; eassumption.
  - apply StronglySorted_cons in Hsorted as [_ Hsorted]. auto.
Qed.

Lemma rev_sorted {A} (R : relation A) (xs : list A) :
  StronglySorted R xs -> StronglySorted (flip R) (rev xs).
Proof.
  induction xs as [|x xs IH]; intros Hsorted; simpl; [constructor|].
  apply StronglySorted_cons in Hsorted as [Hx Hsorted].
  apply StronglySorted_app_2; [|auto|repeat constructor].
  intros a b Ha Hb%list_elem_of_singleton. subst b.
  rewrite Forall_forall in Hx. apply Hx.
  apply list_elem_of_In, in_rev, list_elem_of_In in Ha. exact Ha.
Qed.

Lemma sorted_lookup {A} (R : relation A) (xs : list A) i j a b :
  StronglySorted R xs -> (i < j)%nat ->
  xs !! i = Some a -> xs !! j = Some b -> R a b.
Proof.
  intros Hsorted. revert i j.
  induction Hsorted as [|x xs Hsorted IH Hx]; intros i j Hij Ha Hb.
  - discriminate.
  - destruct j as [|j]; [lia|]. simpl in Hb. destruct i as [|i].
    + injection Ha as <-. rewrite Forall_forall in Hx. apply Hx.
      eapply list_elem_of_lookup_2; eassumption.
    + simpl in Ha. apply (IH i j); [lia | assumption..].
Qed.

Lemma py_slice_from_length {A} (xs : list A) start :
  length (py_slice_from xs start) =
  Z.to_nat (len xs - slice_index (len xs) start).
Proof.
  unfold py_slice_from, py_slice.
  pose proof (len_nonneg xs) as Hn.
  rewrite slice_index_beyond by lia.
  rewrite length_take, length_drop. unfold len in *.
  assert (0 <= slice_index (Z.of_nat (length xs)) start).
  { unfold slice_index. destruct (Z.ltb_spec start 0); lia. }
  lia.
Qed.

(** With the upper bound left out, a slice is what remains after dropping
    a prefix. *)
Lemma py_slice_from_drop {A} (xs : list A) start :
  py_slice_from xs start = drop (Z.to_nat (slice_index (len xs) start)) xs.
Proof.
  unfold py_slice_from, py_slice.
  pose proof (len_nonneg xs) as Hn.
  rewrite slice_index_beyond by lia.
  apply take_ge. rewrite length_drop. unfold len. lia.
Qed.


Lemma sorted_weaken {A} (R R' : relation A) (xs : list A) :
  (forall a b, R a b -> R' a b) -> StronglySorted R xs -> StronglySorted R' xs.
Proof.
  intros Himpl. induction 1 as [|x xs Hsorted IH Hx]; constructor; [exact IH|].
  eapply Forall_impl; [exact Hx|]. cbn. auto.
Qed.

Lemma sorts_before_le sims a b :
  sorts_before sims a b -> (score sims a <= score sims b)%Q.
Proof.
  intros [Hlt|[Heq _]]; [now apply Qlt_le_weak | rewrite Heq; apply Qle_refl].
Qed.

(** The insertion sort meets NumPy's contract. *)
Lemma insertion_argsort_spec : argsort_spec insertion_argsort.
Proof.
  intros sims. split; [apply insertion_argsort_perm|].
  eapply sorted_weaken; [|apply insertion_argsort_sorted].
  apply sorts_before_le.
Qed.

Lemma score_opp sims i : score (map Qopp sims) i = Qopp (score sims i).
Proof. unfold score. apply (map_nth Qopp sims 0%Q i). Qed.

(** So does the sort that leaves equal values in decreasing order. *)
Lemma reversed_ties_argsort_spec : argsort_spec reversed_ties_argsort.
Proof.
  intros sims. unfold reversed_ties_argsort. split.
  - rewrite <- (Permutation_rev (insertion_argsort (map Qopp sims))).
    rewrite insertion_argsort_perm. now rewrite length_map.
  - eapply sorted_weaken; [|apply rev_sorted, insertion_argsort_sorted].
    intros a b Hba. unfold flip in Hba. apply sorts_before_le in Hba.
    rewrite !score_opp in Hba. now apply Qopp_le_compat in Hba;
      rewrite !Qopp_opp in Hba.
Qed.

(** On two equal values the two sorts disagree, and so do the rankings. *)
Lemma top_indices_tie_insertion (c : Q) :
  top_indices insertion_argsort [c; c] 2 = [1; 0]%nat.
Proof.
  unfold top_indices, insertion_argsort. simpl.
  assert (Hc : Qle_bool c c = true) by apply Qle_bool_iff, Qle_refl.
  unfold score. simpl. rewrite Hc. reflexivity.
Qed.

Lemma top_indices_tie_reversed (c : Q) :
  top_indices reversed_ties_argsort [c; c] 2 = [0; 1]%nat.
Proof.
  unfold top_indices, reversed_ties_argsort, insertion_argsort. simpl.
  assert (Hc : Qle_bool (- c) (- c) = true) by apply Qle_bool_iff, Qle_refl.
  unfold score. simpl. rewrite Hc. reflexivity.
Qed.

(** However ties are sorted, a slice from the end holds no more positions
    than were asked for. *)
Lemma top_indices_length_le (argsort : list Q -> list nat) sims k :
  0 < k -> (length (top_indices argsort sims k) <= Z.to_nat k)%nat.
Proof.
  intros Hk. unfold top_indices. rewrite length_rev, py_slice_from_length.
  unfold slice_index. destruct (Z.ltb_spec (- k) 0); lia.
Qed.
End RankerFacts.

(** ** Facts about the ranking under NumPy's contract *)

Section RankingUnderContract.
Variable argsort : list Q -> list nat.
Hypothesis argsort_ok : argsort_spec argsort.
Implicit Types (sims : list Q) (l : list nat).

Lemma argsort_perm sims : argsort sims ≡ₚ seq 0 (length sims).
Proof. apply argsort_ok. Qed.

Lemma argsort_sorted sims :
  StronglySorted (fun a b => (score sims a <= score sims b)%Q) (argsort sims).
Proof. apply argsort_ok. Qed.

Lemma argsort_length sims : length (argsort sims) = length sims.
Proof. now rewrite argsort_perm, length_seq. Qed.

(** The ranking lists positions from the best down. *)
Lemma top_indices_sorted sims k :
  StronglySorted (fun a b => (score sims b <= score sims a)%Q)
                 (top_indices argsort sims k).
Proof.
  unfold top_indices, py_slice_from.
  apply (rev_sorted (fun a b => (score sims a <= score sims b)%Q)).
  eapply sublist_sorted; [apply py_slice_sublist | apply argsort_sorted].
Qed.

Lemma top_indices_in_range sims k i :
  i ∈ top_indices argsort sims k -> (i < length sims)%nat.
Proof.
  unfold top_indices, py_slice_from. intros Hi.
  apply list_elem_of_In, in_rev, list_elem_of_In in Hi.
  eapply elem_of_sublist in Hi; [|apply py_slice_sublist].
  rewrite argsort_perm in Hi. apply elem_of_seq in Hi. lia.
Qed.

Lemma top_indices_NoDup sims k : NoDup (top_indices argsort sims k).
Proof.
  unfold top_indices, py_slice_from.
  apply NoDup_ListNoDup, NoDup_rev, NoDup_ListNoDup.
  eapply sublist_NoDup; [|apply py_slice_sublist].
  rewrite argsort_perm. apply NoDup_seq.
Qed.

(** No position left out of the ranking has a greater value than a
    position in it. *)
Lemma top_indices_above_rest sims k a b :
  a ∈ top_indices argsort sims k -> (b < length sims)%nat ->
  b ∉ top_indices argsort sims k -> (score sims b <= score sims a)%Q.
Proof.
  unfold top_indices. rewrite py_slice_from_drop.
  set (lo := Z.to_nat _). intros Ha Hb Hout.
  assert (Hin : forall x, x ∈ rev (drop lo (argsort sims)) <->
                          x ∈ drop lo (argsort sims)).
  { intros x. rewrite !list_elem_of_In. symmetry. apply in_rev. }
  rewrite Hin in Ha, Hout.
  pose proof (argsort_sorted sims) as Hsorted.
  rewrite <- (take_drop lo (argsort sims)) in Hsorted.
  apply (StronglySorted_app_1_elem_of
           (fun a b => (score sims a <= score sims b)%Q) _ _ b a Hsorted);
    [|exact Ha].
  assert (Hb' : b ∈ argsort sims).
  { rewrite argsort_perm. apply elem_of_seq. lia. }
  rewrite <- (take_drop lo (argsort sims)) in Hb'.
  apply elem_of_app in Hb' as [Hb'|Hb']; [exact Hb' | contradiction].
Qed.

(** The position listed first has a value no other position exceeds. *)
Lemma top_indices_first_is_max sims k a b :
  top_indices argsort sims k !! 0%nat = Some a -> (b < length sims)%nat ->
  (score sims b <= score sims a)%Q.
Proof.
  intros Ha Hb.
  destruct (decide (b ∈ top_indices argsort sims k)) as [Hin|Hout].
  - apply list_elem_of_lookup in Hin as [j Hj]. destruct j as [|j].
    + rewrite Ha in Hj. injection Hj as ->. apply Qle_refl.
    + exact (sorted_lookup _ _ 0%nat (S j) a b (top_indices_sorted sims k)
               ltac:(lia) Ha Hj).
  - eapply top_indices_above_rest; [|exact Hb|exact Hout].
    eapply list_elem_of_lookup_2. exact Ha.
Qed.

(** A positive [top_k] selects [min(top_k, n)] positions. *)
Lemma top_indices_length_pos sims k :
  0 < k -> length (top_indices argsort sims k) = Z.to_nat (Z.min k (len sims)).
Proof.
  intros Hk. unfold top_indices. rewrite length_rev, py_slice_from_length.
  unfold len. rewrite argsort_length. unfold slice_index.
  destruct (Z.ltb_spec (- k) 0); lia.
Qed.

(** [top_k = 0] selects every position: [-0] is [0], and [xs[0:]] is all
    of [xs]. *)
Lemma top_indices_length_zero sims :
  length (top_indices argsort sims 0) = length sims.
Proof.
  unfold top_indices. rewrite length_rev, py_slice_from_length.
  unfold len. rewrite argsort_length, slice_index_zero by lia. lia.
Qed.

Lemma top_indices_zero sims : top_indices argsort sims 0 = rev (argsort sims).
Proof.
  unfold top_indices. rewrite py_slice_from_drop.
  rewrite slice_index_zero by apply len_nonneg. reflexivity.
Qed.

Lemma top_indices_empty k : top_indices argsort [] k = [].
Proof.
  unfold top_indices, py_slice_from, py_slice.
  assert (Hnil : argsort [] = []).
  { apply Permutation_nil. symmetry. exact (argsort_perm []). }
  rewrite Hnil. cbn [length]. now rewrite drop_nil, take_nil.
Qed.

(** Two values in strictly descending order are sorted one way only. *)
Lemma argsort_two_descending (x y : Q) :
  (y < x)%Q -> argsort [x; y] = [1; 0]%nat.
Proof.
  intros Hlt.
  pose proof (argsort_perm [x; y]) as Hperm.
  pose proof (argsort_sorted [x; y]) as Hsorted.
  cbn [length seq] in Hperm.
  apply Permutation_sym, Permutation_length_2_inv in Hperm as [Heq|Heq];
    rewrite Heq in *; [|reflexivity].
  apply StronglySorted_cons in Hsorted as [Hfirst _].
  apply Forall_cons in Hfirst as [Hle _]. unfold score in Hle. simpl in Hle.
  exfalso. eapply Qlt_not_le; eassumption.
Qed.
End RankingUnderContract.

(** ** Facts about the store handlers *)

Section RetrievalFacts.
Context {char vec : Type}.
Variable isspace : char -> bool.
Variable cosine_similarity : vec -> vec -> Q.
Variable dim : vec -> nat.
Variable argsort : list Q -> list nat.

Implicit Types (s : gmap string (pdf_data char vec)) (u : string)
  (text query : list char)
  (reply : provider_reply vec) (o : op char vec) (ops : list (op char vec)).

Lemma np_array_Some (vectors array : list vec) :
  np_array dim vectors = Some array -> array = vectors.
Proof.
  unfold np_array. destruct vectors as [|v vs]; [congruence|].
  destruct (forallb _ vs); congruence.
Qed.

(** The four ways [upload_pdf] can end. *)
Lemma upload_pdf_cases s u text reply :
  upload_pdf isspace dim s u text reply = (s, ExtractionEmpty) /\ blank isspace text = true \/
  upload_pdf isspace dim s u text reply = (s, EmbeddingFailed) /\
    blank isspace text = false /\ falsy (get_embeddings reply) = true \/
  upload_pdf isspace dim s u text reply = (s, UploadException) /\
    falsy (get_embeddings reply) = false \/
  exists chunks vectors,
    chunk_text_default text = Some chunks /\
    get_embeddings reply = Some vectors /\
    vectors <> [] /\
    upload_pdf isspace dim s u text reply =
      (<[u := PdfData chunks vectors true]> s, Uploaded (length chunks)).
Proof.
  unfold upload_pdf.
  destruct (blank isspace text) eqn:Hblank; [left; auto|].
  destruct (chunk_text_default_total text) as [chunks Hchunks].
  rewrite Hchunks.
  destruct reply as [|[|v vectors]]; cbn -[np_array].
  - right; left; auto.
  - right; left; auto.
  - destruct (np_array dim (v :: vectors)) as [array|] eqn:Harray.
    + pose proof (np_array_Some _ _ Harray) as ->.
      right; right; right. exists chunks, (v :: vectors).
      split; [reflexivity|]. split; [reflexivity|].
      split; [discriminate | reflexivity].
    + right; right; left. auto.
Qed.

Lemma upload_pdf_uploaded s u text reply s' n :
  upload_pdf isspace dim s u text reply = (s', Uploaded n) ->
  exists chunks vectors,
    chunk_text_default text = Some chunks /\
    get_embeddings reply = Some vectors /\
    vectors <> [] /\
    s' = <[u := PdfData chunks vectors true]> s /\
    n = length chunks.
Proof.
  intros Hup.
  destruct (upload_pdf_cases s u text reply)
    as [[H _]|[[H _]|[[H _]|(chunks & vectors & Hc & He & Hne & H)]]];
    rewrite H in Hup; try discriminate.
  injection Hup as <- <-. exists chunks, vectors. auto.
Qed.

(** A failed embedding step leaves the dict as it was. *)
Lemma upload_pdf_failed s u text reply :
  falsy (get_embeddings reply) = true ->
  (upload_pdf isspace dim s u text reply).1 = s /\
  (blank isspace text = false ->
   (upload_pdf isspace dim s u text reply).2 = EmbeddingFailed).
Proof.
  intros Hfail.
  destruct (upload_pdf_cases s u text reply)
    as [[H Hb]|[[H _]|[[H Hok]|(chunks & vectors & _ & He & Hne & _)]]].
  - rewrite H. split; [reflexivity|]. congruence.
  - rewrite H. split; reflexivity.
  - congruence.
  - rewrite He in Hfail. destruct vectors; [congruence | discriminate].
Qed.

Lemma upload_pdf_other s u text reply u' :
  u <> u' -> (upload_pdf isspace dim s u text reply).1 !! u' = s !! u'.
Proof.
  intros Hne.
  destruct (upload_pdf_cases s u text reply)
    as [[H _]|[[H _]|[[H _]|(chunks & vectors & _ & _ & _ & H)]]];
    rewrite H; simpl; [reflexivity..|].
  now apply lookup_insert_ne.
Qed.

Lemma pdf_chat_store s u query reply :
  (pdf_chat cosine_similarity dim argsort s u query reply).1 = s.
Proof.
  unfold pdf_chat. destruct (s !! u) as [d|]; [|reflexivity].
  destruct (negb (loaded d)); [reflexivity|].
  destruct query as [|q0 query']; [reflexivity|].
  destruct (retrieve_relevant_chunks _ _ _ _ _) as [[|c cs]|]; reflexivity.
Qed.

Lemma pdf_chat_no_entry s u query reply :
  s !! u = None ->
  pdf_chat cosine_similarity dim argsort s u query reply = (s, NoDocumentLoaded).
Proof. intros Hno. unfold pdf_chat. now rewrite Hno. Qed.

Lemma logout_other s user_id u' :
  user_id <> Some u' -> logout s user_id !! u' = s !! u'.
Proof.
  intros Hne. unfold logout. destruct user_id as [u|]; [|reflexivity].
  destruct (_ && _); [|reflexivity].
  apply lookup_delete_ne. congruence.
Qed.

Lemma logout_absent s user_id u' :
  s !! u' = None -> logout s user_id !! u' = None.
Proof.
  intros Hno. unfold logout. destruct user_id as [u|]; [|exact Hno].
  destruct (_ && _); [|exact Hno].
  rewrite lookup_delete. case_decide; [reflexivity | exact Hno].
Qed.

(** A request writes at most the entry of its own user. *)
Lemma step_other s o u' :
  op_target o <> Some u' ->
  step isspace cosine_similarity dim argsort s o !! u' = s !! u'.
Proof.
  intros Hne. destruct o as [u text reply|u query reply|user_id]; simpl in *.
  - apply upload_pdf_other. congruence.
  - now rewrite pdf_chat_store.
  - now apply logout_other.
Qed.

Lemma run_other s ops u' :
  Forall (fun o => op_target o <> Some u') ops ->
  run isspace cosine_similarity dim argsort s ops !! u' = s !! u'.
Proof.
  intros Hops. revert s. unfold run.
  induction Hops as [|o ops Ho Hops IH]; intros s; simpl; [reflexivity|].
  rewrite IH. now apply step_other.
Qed.

(** Whatever retrieval returns was read from the user's stored chunks. *)
Lemma retrieve_relevant_chunks_stored s u top_k reply d cs :
  s !! u = Some d ->
  retrieve_relevant_chunks cosine_similarity dim argsort s u top_k reply = Some cs ->
  forall c, c ∈ cs -> c ∈ chunks d.
Proof.
  intros Hd. unfold retrieve_relevant_chunks. rewrite Hd.
  destruct (_ || _); [intros [= <-] c Hc; inversion Hc|].
  destruct (get_embeddings reply) as [[|qe qes]|];
    try (intros [= <-] c Hc; inversion Hc).
  destruct (query_similarities _ _ _ _) as [sims|]; [|discriminate].
  intros Hcs%mapM_Some c Hc.
  apply list_elem_of_lookup in Hc as [i Hi].
  destruct (Forall2_lookup_r _ _ _ _ _ Hcs Hi) as (j & _ & Hj).
  eapply list_elem_of_lookup_2; eassumption.
Qed.

Lemma pdf_chat_retrieved s u query reply cs :
  (pdf_chat cosine_similarity dim argsort s u query reply).2 = Retrieved cs ->
  exists d, s !! u = Some d /\ loaded d = true /\
            forall c, c ∈ cs -> c ∈ chunks d.
Proof.
  unfold pdf_chat. destruct (s !! u) as [d|] eqn:Hd; [|discriminate].
  destruct (loaded d) eqn:Hl; simpl; [|discriminate].
  destruct query as [|q0 query']; [discriminate|].
  destruct (retrieve_relevant_chunks _ _ _ _ _) as [[|c0 cs0]|] eqn:Hr;
    simpl; try discriminate.
  intros [= <-]. exists d. split; [reflexivity|]. split; [exact Hl|].
  eapply retrieve_relevant_chunks_stored; eassumption.
Qed.

(** A request whose provider reply honours the contract keeps every entry
    length-matched. *)
Lemma step_length_matched s o :
  honours_contract o = true -> length_matched s ->
  length_matched (step isspace cosine_similarity dim argsort s o).
Proof.
  intros Hok Hs. destruct o as [u text reply|u query reply|user_id]; simpl in *.
  - destruct (upload_pdf_cases s u text reply)
      as [[H _]|[[H _]|[[H _]|(chunks & vectors & Hc & He & _ & H)]]];
      rewrite H; simpl; try exact Hs.
    rewrite Hc in Hok. destruct reply as [|vs]; [discriminate|].
    injection He as ->. simpl in Hok. apply Nat.eqb_eq in Hok.
    apply map_Forall_insert_2; [simpl; congruence | exact Hs].
  - now rewrite pdf_chat_store.
  - unfold logout. destruct user_id as [u|]; [|exact Hs].
    destruct (_ && _); [|exact Hs]. now apply map_Forall_delete.
Qed.

(** The contract is needed: [upload_pdf] stores whatever number of vectors
    of one length the provider sent. *)
Lemma upload_pdf_stores_any_reply s u text v1 v2 :
  blank isspace text = false ->
  chunk_text_default text = Some [text] ->
  dim v2 = dim v1 ->
  (upload_pdf isspace dim s u text (Data [v1; v2])).1 !! u =
  Some (PdfData [text] [v1; v2] true).
Proof.
  intros Hblank Hchunks Hdim. unfold upload_pdf. rewrite Hblank, Hchunks.
  simpl. rewrite Hdim, Nat.eqb_refl. simpl. apply lookup_insert_eq.
Qed.

Lemma run_length_matched s ops :
  forallb honours_contract ops = true -> length_matched s ->
  length_matched (run isspace cosine_similarity dim argsort s ops).
Proof.
  revert s. unfold run.
  induction ops as [|o ops IH]; intros s Hok Hs; simpl in *; [exact Hs|].
  apply andb_prop in Hok as [Ho Hok].
  apply IH; [exact Hok|]. now apply step_length_matched.
Qed.

(** A request that is not a successful load for [u] leaves [u] without
    an entry. *)
Lemma step_absent s o u :
  loads_for isspace dim u s o = false -> s !! u = None ->
  step isspace cosine_similarity dim argsort s o !! u = None.
Proof.
  intros Hload Hno. destruct o as [u0 text reply|u0 query reply|user_id]; simpl in *.
  - destruct (String.eqb_spec u0 u) as [->|Hne].
    + destruct (upload_pdf_cases s u text reply)
        as [[H _]|[[H _]|[[H _]|(chunks & vectors & _ & _ & _ & H)]]];
        rewrite H in Hload |- *; simpl in *; (exact Hno || discriminate).
    + now rewrite upload_pdf_other.
  - now rewrite pdf_chat_store.
  - now apply logout_absent.
Qed.

Lemma run_absent s ops u :
  never_loaded isspace cosine_similarity dim argsort u s ops = true -> s !! u = None ->
  run isspace cosine_similarity dim argsort s ops !! u = None.
Proof.
  revert s. unfold run.
  induction ops as [|o ops IH]; intros s Hnever Hno; simpl in *; [exact Hno|].
  apply andb_prop in Hnever as [Ho Hnever].
  apply IH; [exact Hnever|].
  apply step_absent; [|exact Hno]. now apply negb_true_iff.
Qed.
End RetrievalFacts.

(** ** The chunker against the specification *)

(** C1. With [overlap >= size] the chunker is specified to fail with an
    [InvalidConfiguration] error. [chunk_text] has no such guard: on the
    one-character text ["A"] with size 100 and overlap 100, and again with
    overlap 150, the loop is still running whatever fuel it is given, so
    the call never returns, neither chunks nor an error. *)
Theorem C1_overlap_not_below_size_never_returns (fuel : nat) :
  chunk_text fuel (text_of "A") 100 100 = None /\
  chunk_text fuel (text_of "A") 100 150 = None.
Proof.
  split; apply chunk_loop_stuck; unfold len; simpl; lia.
Qed.

(** C3, as the specification states it, fails: no run of the loop on
    ["ABCDEFGHIJ"] with size 4 and overlap 1 ends with the three chunks
    ["ABCD"], ["DEFG"], ["GHIJ"]; it ends with a fourth chunk ["J"]. *)
Lemma C3_three_chunks_refuted :
  chunk_text 4 (text_of "ABCDEFGHIJ") 4 1 =
    Some (map text_of ["ABCD"; "DEFG"; "GHIJ"; "J"]) /\
  ~ exists fuel, chunk_text fuel (text_of "ABCDEFGHIJ") 4 1 =
                   Some (map text_of ["ABCD"; "DEFG"; "GHIJ"]).
Proof.
  split; [reflexivity|]. intros [fuel Hfuel].
  assert (H4 : chunk_text 4 (text_of "ABCDEFGHIJ") 4 1 =
               Some (map text_of ["ABCD"; "DEFG"; "GHIJ"; "J"])) by reflexivity.
  unfold chunk_text in *.
  destruct (Nat.le_ge_cases fuel 4) as [Hle|Hge].
  - rewrite (chunk_loop_fuel_mono _ _ _ _ _ _ _ _ Hfuel Hle) in H4. discriminate.
  - rewrite (chunk_loop_fuel_mono _ _ _ _ _ _ _ _ H4 Hge) in Hfuel. discriminate.
Qed.

(** C3 (amended). Chunking ["ABCDEFGHIJ"] with size 4 and overlap 1 takes
    four iterations and produces exactly the four chunks ["ABCD"],
    ["DEFG"], ["GHIJ"], ["J"]: the slices of length 4 that start at
    offsets 0, 3, 6 and 9, the offset advancing by 3 each step and offset 9
    still being below the length 10. *)
Theorem C3_example_has_four_chunks (fuel : nat) :
  chunk_text (4 + fuel) (text_of "ABCDEFGHIJ") 4 1 =
    Some (map text_of ["ABCD"; "DEFG"; "GHIJ"; "J"]) /\
  map text_of ["ABCD"; "DEFG"; "GHIJ"; "J"] =
    map (fun start => py_slice (text_of "ABCDEFGHIJ") start (start + 4))
        [0; 3; 6; 9].
Proof.
  split; [|reflexivity]. destruct fuel; reflexivity.
Qed.

(** C4, as the specification states it, fails: ["ABC"] is shorter than
    size 4, and with overlap 3 it is cut into three chunks, not one. *)
Lemma C4_short_text_refuted :
  chunk_text 3 (text_of "ABC") 4 3 = Some (map text_of ["ABC"; "BC"; "C"]) /\
  ~ exists fuel, chunk_text fuel (text_of "ABC") 4 3 = Some [text_of "ABC"].
Proof.
  split; [reflexivity|]. intros [fuel Hfuel].
  assert (H3 : chunk_text 3 (text_of "ABC") 4 3 =
               Some (map text_of ["ABC"; "BC"; "C"])) by reflexivity.
  unfold chunk_text in *.
  destruct (Nat.le_ge_cases fuel 3) as [Hle|Hge].
  - rewrite (chunk_loop_fuel_mono _ _ _ _ _ _ _ _ Hfuel Hle) in H3. discriminate.
  - rewrite (chunk_loop_fuel_mono _ _ _ _ _ _ _ _ H3 Hge) in Hfuel. discriminate.
Qed.

(** C4 (amended). For every valid (size, overlap): chunking the empty text
    returns the empty sequence; chunking a non-empty text shorter than
    [size] returns a sequence whose first chunk is the whole text, and that
    chunk is the only one exactly when [len(text) <= size - overlap]. *)
Theorem C4_short_text_first_chunk_is_whole {char : Type} (text : list char)
    (chunk_size overlap : Z) :
  0 <= overlap < chunk_size ->
  (forall fuel, chunk_text fuel (@nil char) chunk_size overlap = Some []) /\
  (text <> [] -> len text < chunk_size ->
   exists rest,
     (forall fuel, (length text <= fuel)%nat ->
        chunk_text fuel text chunk_size overlap = Some (text :: rest)) /\
     (rest = [] <-> len text <= chunk_size - overlap)).
Proof.
  intros Hvalid. split; [intros fuel; apply chunk_text_empty|].
  intros Hne Hshort.
  destruct text as [|c text']; [congruence|]. clear Hne.
  set (text := c :: text') in *.
  assert (Hlen : len text = Z.of_nat (S (length text'))) by reflexivity.
  pose proof (chunk_text_short (length text') text chunk_size overlap
                ltac:(lia) ltac:(lia)) as Hfirst.
  destruct (chunk_loop_terminates (length text') text chunk_size overlap
              (chunk_size - overlap) [] ltac:(lia) ltac:(lia))
    as [rest Hrest].
  rewrite Hrest in Hfirst. simpl in Hfirst.
  exists rest. split.
  - intros fuel Hfuel. unfold chunk_text in *.
    eapply chunk_loop_fuel_mono; [exact Hfirst | exact Hfuel].
  - destruct (Z.le_gt_cases (len text) (chunk_size - overlap)) as [Hle|Hgt].
    + rewrite chunk_loop_done in Hrest by assumption.
      injection Hrest as <-. split; auto.
    + split; [|lia]. intros ->.
      destruct (length text') as [|m] eqn:Hm; [lia|].
      rewrite chunk_loop_step, chunk_loop_acc in Hrest by lia.
      destruct (chunk_loop m _ _ _ _ []); discriminate.
Qed.

Lemma C4_short_text_first_chunk_is_whole_witness :
  (0 <= 1 < 4) /\
  (forall fuel, chunk_text fuel (@nil Ascii.ascii) 4 1 = Some []) /\
  (text_of "AB" <> [] -> len (text_of "AB") < 4 ->
   exists rest,
     (forall fuel, (length (text_of "AB") <= fuel)%nat ->
        chunk_text fuel (text_of "AB") 4 1 = Some (text_of "AB" :: rest)) /\
     (rest = [] <-> len (text_of "AB") <= 4 - 1)).
Proof.
  split; [lia|].
  apply (C4_short_text_first_chunk_is_whole (text_of "AB") 4 1). lia.
Defined.

(** ** The ranking against the specification *)

(** C2, as the specification states it, is not what the code does: the
    order of tied positions is left to NumPy's sort, whose default kind is
    not stable. For a corpus of two vectors equal to the query, both of
    similarity 1, and [k = 2], a sort that meets NumPy's contract and
    leaves equal values in index order makes the ranking [1, 0], not
    [0, 1]; only a sort that leaves them in reverse order gives [0, 1]. *)
Lemma C2_ascending_ties_refuted :
  dot [1; 0]%Q [1; 0]%Q = 1%Q /\
  (argsort_spec insertion_argsort /\
   topK dot insertion_argsort [1; 0]%Q [[1; 0]%Q; [1; 0]%Q] 2 = [1; 0]%nat /\
   topK dot insertion_argsort [1; 0]%Q [[1; 0]%Q; [1; 0]%Q] 2 <> [0; 1]%nat) /\
  (argsort_spec reversed_ties_argsort /\
   topK dot reversed_ties_argsort [1; 0]%Q [[1; 0]%Q; [1; 0]%Q] 2 = [0; 1]%nat).
Proof.
  split; [reflexivity|]. split.
  - split; [apply insertion_argsort_spec|]. split; [reflexivity | discriminate].
  - split; [apply reversed_ties_argsort_spec | reflexivity].
Qed.

(** C5. The ranking is specified to return [min(k, len(corpus))] positions,
    none for [k = 0]. With [top_k = 0] the slice [[-top_k:]] is [[0:]], the
    whole array: on a corpus of two vectors the code returns both
    positions, and retrieval returns both of the user's chunks, whatever
    sort meeting NumPy's contract is used. *)
Theorem C5_top_k_zero_returns_every_index (argsort : list Q -> list nat) :
  argsort_spec argsort ->
  topK dot argsort [1; 0]%Q [[1; 0]%Q; [0; 1]%Q] 0 = [0; 1]%nat /\
  Z.min 0 (len [[1; 0]%Q; [0; 1]%Q]) = 0 /\
  retrieve_relevant_chunks dot vec_dim argsort two_chunk_store "alice" 0
    (Data [[1; 0]%Q]) =
    Some [text_of "chunk zero"; text_of "chunk one"].
Proof.
  intros Hspec.
  assert (Hrank : top_indices argsort (map (dot [1; 0]%Q) [[1; 0]%Q; [0; 1]%Q]) 0 =
                  [0; 1]%nat).
  { rewrite (top_indices_zero argsort). cbn [map].
    rewrite (argsort_two_descending argsort Hspec); reflexivity. }
  split; [exact Hrank|]. split; [reflexivity|].
  unfold retrieve_relevant_chunks.
  change (two_chunk_store !! "alice")
    with (Some (PdfData [text_of "chunk zero"; text_of "chunk one"]
                        [[1; 0]%Q; [0; 1]%Q] true)).
  cbn [loaded negb orb embeddings length Nat.eqb get_embeddings chunks].
  change (query_similarities dot vec_dim [1; 0]%Q [[1; 0]%Q; [0; 1]%Q])
    with (Some (map (dot [1; 0]%Q) [[1; 0]%Q; [0; 1]%Q])).
  cbv beta iota. rewrite Hrank. reflexivity.
Qed.

Lemma C5_top_k_zero_returns_every_index_witness :
  argsort_spec insertion_argsort /\
  topK dot insertion_argsort [1; 0]%Q [[1; 0]%Q; [0; 1]%Q] 0 = [0; 1]%nat /\
  Z.min 0 (len [[1; 0]%Q; [0; 1]%Q]) = 0 /\
  retrieve_relevant_chunks dot vec_dim insertion_argsort two_chunk_store "alice" 0
    (Data [[1; 0]%Q]) =
    Some [text_of "chunk zero"; text_of "chunk one"].
Proof.
  split; [apply insertion_argsort_spec|].
  apply (C5_top_k_zero_returns_every_index insertion_argsort).
  apply insertion_argsort_spec.
Defined.

Section RankingClaims.
Context {vec : Type}.
Variable cosine_similarity : vec -> vec -> Q.
Variable argsort : list Q -> list nat.
Hypothesis argsort_ok : argsort_spec argsort.

(** For [k >= 1] the ranking does return [min(k, len(corpus))] positions,
    and none on the empty corpus. *)
Lemma topK_length_pos (query : vec) (corpus : list vec) (k : Z) :
  0 < k ->
  length (topK cosine_similarity argsort query corpus k) =
  Z.to_nat (Z.min k (len corpus)).
Proof.
  intros Hk. unfold topK.
  rewrite (top_indices_length_pos argsort argsort_ok) by assumption.
  unfold len. now rewrite length_map.
Qed.

Lemma topK_empty (query : vec) (k : Z) :
  topK cosine_similarity argsort query [] k = [].
Proof. apply (top_indices_empty argsort argsort_ok). Qed.

Lemma topK_zero_length (query : vec) (corpus : list vec) :
  length (topK cosine_similarity argsort query corpus 0) = length corpus.
Proof.
  unfold topK.
  now rewrite (top_indices_length_zero argsort argsort_ok), length_map.
Qed.

(** C2 (amended). With a sort that meets NumPy's contract, the ranking is
    a function of the query, the corpus and [k]; it lists positions by
    descending similarity, and no position it leaves out has a greater
    similarity than one it lists. The order among positions of equal
    similarity is not fixed by the code: for a corpus of two vectors equal
    to the query and [k = 2] the ranking is [0, 1] or [1, 0]. *)
Theorem C2_topK_by_descending_similarity (query : vec) :
  (topK cosine_similarity argsort query [query; query] 2 = [0; 1]%nat \/
   topK cosine_similarity argsort query [query; query] 2 = [1; 0]%nat) /\
  (forall (corpus : list vec) (k : Z) (i j a b : nat),
     (i < j)%nat ->
     topK cosine_similarity argsort query corpus k !! i = Some a ->
     topK cosine_similarity argsort query corpus k !! j = Some b ->
     let sims := map (cosine_similarity query) corpus in
     (score sims b <= score sims a)%Q) /\
  (forall (corpus : list vec) (k : Z) (a b : nat),
     a ∈ topK cosine_similarity argsort query corpus k ->
     (b < length corpus)%nat ->
     b ∉ topK cosine_similarity argsort query corpus k ->
     let sims := map (cosine_similarity query) corpus in
     (score sims b <= score sims a)%Q).
Proof.
  split; [|split].
  - unfold topK, top_indices. cbn [map].
    set (sims := [cosine_similarity query query; cosine_similarity query query]).
    pose proof (argsort_perm argsort argsort_ok sims) as Hperm.
    cbn [length seq] in Hperm.
    apply Permutation_sym, Permutation_length_2_inv in Hperm as [-> | ->];
      [right | left]; reflexivity.
  - intros corpus k i j a b Hij Ha Hb sims.
    exact (sorted_lookup _ _ i j a b
             (top_indices_sorted argsort argsort_ok sims k) Hij Ha Hb).
  - intros corpus k a b Ha Hb Hout sims.
    apply (top_indices_above_rest argsort argsort_ok sims k a b Ha); [|exact Hout].
    subst sims. now rewrite length_map.
Qed.
End RankingClaims.

Lemma C2_topK_by_descending_similarity_witness :
  let query := [1; 0]%Q in
  let corpus := [[3#5; 4#5]; [0; 1]; [1; 0]; [3#5; -4#5]]%Q in
  let sims := map (dot query) corpus in
  argsort_spec insertion_argsort /\
  (topK dot insertion_argsort query [query; query] 2 = [0; 1]%nat \/
   topK dot insertion_argsort query [query; query] 2 = [1; 0]%nat) /\
  ((1 < 2)%nat /\
   topK dot insertion_argsort query corpus 3 !! 1%nat = Some 3%nat /\
   topK dot insertion_argsort query corpus 3 !! 2%nat = Some 0%nat /\
   (score sims 0 <= score sims 3)%Q).
Proof.
  intros query corpus sims.
  destruct (C2_topK_by_descending_similarity dot insertion_argsort
              insertion_argsort_spec query) as (Htie & Hgen & _).
  split; [apply insertion_argsort_spec|].
  split; [exact Htie|]. split; [lia|]. split; [reflexivity|].
  split; [reflexivity|].
  exact (Hgen corpus 3 1%nat 2%nat 3%nat 0%nat ltac:(lia) eq_refl eq_refl).
Defined.

(** ** The store against the specification *)

Section StoreClaims.
Context {char vec : Type}.
Variable isspace : char -> bool.
Variable cosine_similarity : vec -> vec -> Q.
Variable dim : vec -> nat.
Variable argsort : list Q -> list nat.

Implicit Types (s : gmap string (pdf_data char vec)) (u : string)
  (text query : list char) (reply : provider_reply vec)
  (o : op char vec) (ops : list (op char vec)).

(** C6. If the embedding step of an upload fails (the provider call raises,
    or nothing comes back), the upload reports the failure and the store is
    the one it started from: the user's entry is as before, present or
    absent, and every query is answered as it was before the upload. *)
Theorem C6_failed_embedding_keeps_store s u text reply :
  falsy (get_embeddings reply) = true ->
  blank isspace text = false ->
  upload_pdf isspace dim s u text reply = (s, EmbeddingFailed) /\
  (upload_pdf isspace dim s u text reply).1 !! u = s !! u /\
  forall u' query reply',
    pdf_chat cosine_similarity dim argsort (upload_pdf isspace dim s u text reply).1 u' query reply' =
    pdf_chat cosine_similarity dim argsort s u' query reply'.
Proof.
  intros Hfail Hblank.
  destruct (upload_pdf_failed isspace dim s u text reply Hfail) as [Hstore Hres].
  specialize (Hres Hblank). rewrite Hstore. repeat split.
  rewrite (surjective_pairing (upload_pdf isspace dim s u text reply)).
  now rewrite Hstore, Hres.
Qed.

(** C7. For a user for whom no upload has succeeded, in the store reached
    from the empty one by any sequence of requests, every query is answered
    with the no-document error, and no chunks. *)
Theorem C7_query_before_load_fails ops u query reply :
  never_loaded isspace cosine_similarity dim argsort u ∅ ops = true ->
  pdf_chat cosine_similarity dim argsort (run isspace cosine_similarity dim argsort ∅ ops) u query reply =
  (run isspace cosine_similarity dim argsort ∅ ops, NoDocumentLoaded).
Proof.
  intros Hnever. apply pdf_chat_no_entry.
  apply run_absent; [exact Hnever | apply lookup_empty].
Qed.

(** C8. A successful upload for a user, whatever that user's entry held
    before, leaves exactly the chunks and vectors of the uploaded document
    in the entry; and as long as no later request uploads for or logs out
    that user, every chunk a query of that user returns is a chunk of that
    document. *)
Theorem C8_successful_upload_replaces_index s u text reply s' n :
  upload_pdf isspace dim s u text reply = (s', Uploaded n) ->
  exists chunks2 vectors2,
    chunk_text_default text = Some chunks2 /\
    get_embeddings reply = Some vectors2 /\
    s' !! u = Some (PdfData chunks2 vectors2 true) /\
    forall ops query reply' cs,
      Forall (fun o => op_target o <> Some u) ops ->
      (pdf_chat cosine_similarity dim argsort (run isspace cosine_similarity dim argsort s' ops)
         u query reply').2 = Retrieved cs ->
      forall c, c ∈ cs -> c ∈ chunks2.
Proof.
  intros Hup.
  destruct (upload_pdf_uploaded isspace dim s u text reply s' n Hup)
    as (chunks2 & vectors2 & Hc & He & _ & -> & _).
  exists chunks2, vectors2. repeat split; [exact Hc | exact He | |].
  - apply lookup_insert_eq.
  - intros ops query reply' cs Hops Hq c Hin.
    apply pdf_chat_retrieved in Hq as (d & Hd & _ & Hsub).
    rewrite run_other, lookup_insert_eq in Hd by exact Hops.
    injection Hd as <-. now apply Hsub.
Qed.

(** C9 (amended). In every store reached from the empty one by a sequence
    of uploads, queries and logouts in which the embedding provider answers
    with one vector per text, every entry has as many chunks as vectors.
    The handlers themselves never compare the two lengths. *)
Theorem C9_entries_are_length_matched ops :
  forallb honours_contract ops = true ->
  length_matched (run isspace cosine_similarity dim argsort ∅ ops).
Proof.
  intros Hok. apply run_length_matched; [exact Hok|].
  apply map_Forall_empty.
Qed.

(** C10. A query leaves the whole store as it was, and an upload or a
    logout for one user leaves the entry of every other user as it was. *)
Theorem C10_requests_write_only_their_user s :
  (forall u query reply,
     step isspace cosine_similarity dim argsort s (Query u query reply) = s) /\
  (forall o u',
     op_target o <> Some u' ->
     step isspace cosine_similarity dim argsort s o !! u' = s !! u').
Proof.
  split.
  - intros u query reply. apply pdf_chat_store.
  - intros o u'. apply step_other.
Qed.
End StoreClaims.

Lemma C6_failed_embedding_keeps_store_witness :
  let up := upload_pdf ascii_isspace vec_dim alice_store "alice"
              (text_of "second document") Raised in
  (falsy (get_embeddings (@Raised (list Q))) = true /\
   blank ascii_isspace (text_of "second document") = false) /\
  up = (alice_store, EmbeddingFailed) /\
  up.1 !! "alice" = alice_store !! "alice" /\
  forall u' query reply',
    pdf_chat dot vec_dim insertion_argsort up.1 u' query reply' = pdf_chat dot vec_dim insertion_argsort alice_store u' query reply'.
Proof.
  intros up. split; [split; reflexivity|].
  apply (C6_failed_embedding_keeps_store ascii_isspace dot vec_dim insertion_argsort alice_store "alice"
           (text_of "second document") Raised); reflexivity.
Defined.

Lemma C7_query_before_load_fails_witness :
  never_loaded ascii_isspace dot vec_dim insertion_argsort "alice" ∅ sample_ops = true /\
  pdf_chat dot vec_dim insertion_argsort (run ascii_isspace dot vec_dim insertion_argsort ∅ sample_ops) "alice"
    (text_of "anything there?") (Data [[1; 0]%Q]) =
  (run ascii_isspace dot vec_dim insertion_argsort ∅ sample_ops, NoDocumentLoaded).
Proof.
  split; [reflexivity|].
  apply (C7_query_before_load_fails ascii_isspace dot vec_dim insertion_argsort sample_ops "alice").
  reflexivity.
Defined.

Lemma C8_successful_upload_replaces_index_witness :
  let up := upload_pdf ascii_isspace vec_dim alice_store "alice"
              (text_of "second document") (Data [[0; 1]%Q]) in
  up = (up.1, Uploaded 1) /\
  exists chunks2 vectors2,
    chunk_text_default (text_of "second document") = Some chunks2 /\
    get_embeddings (Data [[0; 1]%Q]) = Some vectors2 /\
    up.1 !! "alice" = Some (PdfData chunks2 vectors2 true) /\
    forall ops query reply' cs,
      Forall (fun o => op_target o <> Some "alice") ops ->
      (pdf_chat dot vec_dim insertion_argsort (run ascii_isspace dot vec_dim insertion_argsort up.1 ops) "alice" query reply').2 =
        Retrieved cs ->
      forall c, c ∈ cs -> c ∈ chunks2.
Proof.
  intros up. split; [reflexivity|].
  apply (C8_successful_upload_replaces_index ascii_isspace dot vec_dim insertion_argsort alice_store
           "alice" (text_of "second document") (Data [[0; 1]%Q]) up.1 1%nat).
  reflexivity.
Defined.

Lemma C9_entries_are_length_matched_witness :
  forallb honours_contract sample_ops = true /\
  length_matched (run ascii_isspace dot vec_dim insertion_argsort ∅ sample_ops).
Proof.
  split; [reflexivity|].
  apply (C9_entries_are_length_matched ascii_isspace dot vec_dim insertion_argsort sample_ops).
  reflexivity.
Defined.

Lemma C10_requests_write_only_their_user_witness :
  step ascii_isspace dot vec_dim insertion_argsort alice_store
    (Query "alice" (text_of "anything there?") (Data [[1; 0]%Q])) = alice_store /\
  (op_target (@Logout Ascii.ascii (list Q) (Some "bob")) <> Some "alice" /\
   step ascii_isspace dot vec_dim insertion_argsort alice_store (Logout (Some "bob")) !! "alice" =
   alice_store !! "alice").
Proof.
  destruct (C10_requests_write_only_their_user ascii_isspace dot vec_dim insertion_argsort alice_store)
    as [Hquery Hother].
  split; [apply Hquery|].
  split; [discriminate|]. apply Hother. discriminate.
Defined.

(** C9, as the specification states it, fails: [upload_pdf] stores the
    vectors the provider sent without counting them. One upload of a
    one-chunk document that the provider answers with two vectors leaves an
    entry of one chunk and two vectors in the store. *)
Lemma C9_length_mismatch_reachable :
  let ops := [LoadDocument "alice" (text_of "first document")
                           (Data [[1; 0]%Q; [0; 1]%Q])] in
  run ascii_isspace dot vec_dim insertion_argsort ∅ ops !! "alice" =
    Some (PdfData [text_of "first document"] [[1; 0]%Q; [0; 1]%Q] true) /\
  ~ length_matched (run ascii_isspace dot vec_dim insertion_argsort ∅ ops).
Proof.
  intros ops.
  assert (Hentry : run ascii_isspace dot vec_dim insertion_argsort ∅ ops !! "alice" =
                   Some (PdfData [text_of "first document"]
                                 [[1; 0]%Q; [0; 1]%Q] true)) by reflexivity.
  split; [exact Hentry|]. intros Hmatched.
  specialize (Hmatched "alice" _ Hentry). discriminate Hmatched.
Qed.

(** ** More about the chunker *)

Section ChunkerShape.
Context {char : Type}.
Implicit Types (text : list char) (chunks : list (list char)).

(** A slice between two offsets that are not negative, read with [take]
    and [drop]. *)
Lemma py_slice_nonneg text start stop :
  0 <= start <= stop ->
  py_slice text start stop =
  take (Z.to_nat (stop - start)) (drop (Z.to_nat start) text).
Proof.
  intros Hs. unfold py_slice, slice_index.
  pose proof (len_nonneg text) as Hn. unfold len in *.
  destruct (Z.ltb_spec start 0); [lia|].
  destruct (Z.ltb_spec stop 0); [lia|].
  destruct (Z.le_gt_cases start (Z.of_nat (length text))) as [Hin|Hout].
  - rewrite (Z.min_l start) by lia.
    destruct (Z.le_gt_cases stop (Z.of_nat (length text))) as [Hin'|Hout'].
    + now rewrite (Z.min_l stop) by lia.
    + rewrite (Z.min_r stop) by lia.
      rewrite !take_ge; [reflexivity | rewrite length_drop; lia..].
  - rewrite !Z.min_r by lia. rewrite Z.sub_diag. simpl.
    rewrite (drop_ge text (Z.to_nat start)) by lia. now rewrite take_nil.
Qed.

Lemma py_slice_length text start stop :
  0 <= start <= stop ->
  len (py_slice text start stop) =
  Z.min (stop - start) (Z.max 0 (len text - start)).
Proof.
  intros Hs. rewrite py_slice_nonneg by assumption.
  unfold len. rewrite length_take, length_drop. lia.
Qed.

(** How many start offsets [start, start + step, ...] lie below the length
    of the text. *)
Lemma chunk_count_step (n start step : Z) :
  0 < step -> start < n ->
  Z.to_nat ((n - start + step - 1) / step) =
  S (Z.to_nat ((n - (start + step) + step - 1) / step)).
Proof.
  intros Hstep Hlt.
  replace (n - start + step - 1) with ((n - (start + step) + step - 1) + 1 * step)
    by lia.
  rewrite Z.div_add by lia.
  assert (0 <= (n - (start + step) + step - 1) / step)
    by (apply Z.div_pos; lia).
  lia.
Qed.

Lemma chunk_count_done (n start step : Z) :
  0 < step -> n <= start -> Z.to_nat ((n - start + step - 1) / step) = 0%nat.
Proof.
  intros Hstep Hge.
  assert ((n - start + step - 1) / step < 1)
    by (apply Z.div_lt_upper_bound; lia).
  lia.
Qed.

(** The loop run from [start] emits the slices of width [chunk_size] that
    begin at [start], [start + step], [start + 2 step], ... for as long as
    the offset is below the length, where [step = chunk_size - overlap]. *)
Lemma chunk_loop_closed_form fuel text cs ov start :
  ov < cs ->
  (Z.to_nat ((len text - start + (cs - ov) - 1) / (cs - ov)) <= fuel)%nat ->
  chunk_loop fuel text cs ov start [] =
  Some (map (fun i : nat =>
               py_slice text (start + Z.of_nat i * (cs - ov))
                             (start + Z.of_nat i * (cs - ov) + cs))
            (seq 0 (Z.to_nat ((len text - start + (cs - ov) - 1) / (cs - ov))))).
Proof.
  intros Hov. revert start.
  induction fuel as [|fuel IH]; intros start Hfuel.
  - destruct (Z.lt_ge_cases start (len text)) as [Hlt|Hge].
    + rewrite chunk_count_step in Hfuel by lia. lia.
    + rewrite chunk_loop_done by assumption.
      now rewrite chunk_count_done by lia.
  - destruct (Z.lt_ge_cases start (len text)) as [Hlt|Hge].
    + rewrite chunk_loop_step, chunk_loop_acc by assumption.
      rewrite chunk_count_step in Hfuel |- * by lia.
      replace (start + cs - ov) with (start + (cs - ov)) by lia.
      rewrite IH by lia. cbn [seq map fmap option_fmap option_map app].
      f_equal. f_equal.
      * f_equal; lia.
      * rewrite <- seq_shift, map_map. apply map_ext. intros i.
        f_equal; lia.
    + rewrite chunk_loop_done by assumption.
      now rewrite chunk_count_done by lia.
Qed.

(** What the loop run from [start] returns, each chunk cut after its first
    [overlap] characters, reads the text from offset [start + overlap] on
    without a gap and without a repeat. *)
Lemma chunk_loop_reassemble fuel text cs ov start chunks :
  0 <= ov < cs -> 0 <= start ->
  chunk_loop fuel text cs ov start [] = Some chunks ->
  concat (map (drop (Z.to_nat ov)) chunks) = drop (Z.to_nat (start + ov)) text.
Proof.
  intros Hov. revert start chunks.
  induction fuel as [|fuel IH]; intros start chunks Hstart Hrun.
  - simpl in Hrun. destruct (Z.ltb_spec start (len text)); [discriminate|].
    injection Hrun as <-. simpl. symmetry. apply drop_ge. unfold len in *. lia.
  - destruct (Z.lt_ge_cases start (len text)) as [Hlt|Hge].
    + rewrite chunk_loop_step, chunk_loop_acc in Hrun by assumption.
      destruct (chunk_loop fuel text cs ov (start + cs - ov) []) as [rest|] eqn:Hrest;
        [|discriminate].
      injection Hrun as <-. apply IH in Hrest; [|lia].
      cbn [app map concat]. rewrite Hrest.
      rewrite py_slice_nonneg by lia.
      replace (Z.to_nat (start + cs - start)) with (Z.to_nat cs) by lia.
      replace (Z.to_nat (start + cs - ov + ov))
        with (Z.to_nat (start + ov) + (Z.to_nat cs - Z.to_nat ov))%nat by lia.
      rewrite skipn_firstn_comm.
      rewrite (drop_drop text (Z.to_nat ov) (Z.to_nat start)).
      rewrite <- (drop_drop text (Z.to_nat cs - Z.to_nat ov) (Z.to_nat (start + ov))).
      replace (Z.to_nat start + Z.to_nat ov)%nat with (Z.to_nat (start + ov)) by lia.
      apply take_drop.
    + rewrite chunk_loop_done in Hrun by assumption.
      injection Hrun as <-. simpl. symmetry. apply drop_ge. unfold len in *. lia.
Qed.
(** Whatever fuel it was run with, a call that returned has returned the
    slices at the multiples of the step. *)
Lemma chunk_text_shape fuel text cs ov chunks :
  ov < cs ->
  chunk_text fuel text cs ov = Some chunks ->
  chunks =
  map (fun i : nat =>
         py_slice text (Z.of_nat i * (cs - ov)) (Z.of_nat i * (cs - ov) + cs))
      (seq 0 (Z.to_nat ((len text + (cs - ov) - 1) / (cs - ov)))).
Proof.
  intros Hov Hrun. unfold chunk_text in Hrun.
  set (n := Z.to_nat ((len text + (cs - ov) - 1) / (cs - ov))).
  pose proof (chunk_loop_fuel_mono fuel (Nat.max fuel n) text cs ov 0 [] chunks
                Hrun ltac:(lia)) as Hmore.
  rewrite chunk_loop_closed_form in Hmore; [|exact Hov|].
  - rewrite Z.sub_0_r in Hmore. fold n in Hmore. cbn [Z.add] in Hmore.
    injection Hmore as <-. reflexivity.
  - rewrite Z.sub_0_r. fold n. lia.
Qed.

(** Every start offset the loop uses is inside the text. *)
Lemma chunk_start_in_text (n step : Z) (i : nat) :
  0 < step -> 0 <= n ->
  (i < Z.to_nat ((n + step - 1) / step))%nat ->
  0 <= Z.of_nat i * step < n.
Proof.
  intros Hstep Hn Hi.
  pose proof (Z.mul_div_le (n + step - 1) step Hstep) as Hq.
  assert (Z.of_nat i + 1 <= (n + step - 1) / step) by lia.
  split; [lia|]. nia.
Qed.
End ChunkerShape.

(** ** More about ranking and retrieval *)

Section RetrievalShape.
Context {char vec : Type}.
Variable isspace : char -> bool.
Variable cosine_similarity : vec -> vec -> Q.
Variable dim : vec -> nat.
Variable argsort : list Q -> list nat.

Implicit Types (s : gmap string (pdf_data char vec)) (u : string)
  (text query : list char) (reply : provider_reply vec).

(** scikit-learn computes the similarities exactly when the query has a
    component and every stored row has as many components as the query. *)
Lemma query_similarities_Some (qe : vec) (rows : list vec) (sims : list Q) :
  query_similarities cosine_similarity dim qe rows = Some sims <->
  dim qe <> 0%nat /\ Forall (fun row => dim row = dim qe) rows /\
  sims = map (cosine_similarity qe) rows.
Proof.
  unfold query_similarities.
  destruct (Nat.eqb_spec (dim qe) 0) as [Hzero|Hpos]; cbn [orb].
  - split; [discriminate | intros [? _]; contradiction].
  - destruct (forallb _ rows) eqn:Hrows; cbn [negb].
    + rewrite forallb_forall in Hrows. split.
      * intros [= <-]. split; [exact Hpos|]. split; [|reflexivity].
        apply Forall_forall. intros row Hrow. apply Nat.eqb_eq, Hrows.
        now apply list_elem_of_In.
      * intros (_ & _ & ->). reflexivity.
    + split; [discriminate|]. intros (_ & Hall & _). exfalso.
      assert (Htrue : forallb (fun row => (dim row =? dim qe)%nat) rows = true).
      { apply forallb_forall. intros row Hrow. apply Nat.eqb_eq.
        rewrite Forall_forall in Hall. apply Hall. now apply list_elem_of_In. }
      congruence.
Qed.


Lemma retrieve_relevant_chunks_nothing s u top_k reply :
  s !! u = None \/
  (exists d, s !! u = Some d /\ (loaded d = false \/ embeddings d = [])) \/
  falsy (get_embeddings reply) = true ->
  retrieve_relevant_chunks cosine_similarity dim argsort s u top_k reply = Some [].
Proof.
  unfold retrieve_relevant_chunks.
  intros [Hno|[(d & Hd & Hwhy)|Hfail]].
  - now rewrite Hno.
  - rewrite Hd. destruct Hwhy as [->| ->]; [reflexivity|].
    now rewrite orb_true_r.
  - destruct (s !! u) as [d|]; [|reflexivity].
    destruct (_ || _); [reflexivity|].
    destruct (get_embeddings reply) as [[|qe rest]|]; (reflexivity || discriminate).
Qed.

(** What a call of retrieval that returned went through. *)
Lemma retrieve_relevant_chunks_inv s u top_k reply cs :
  retrieve_relevant_chunks cosine_similarity dim argsort s u top_k reply = Some cs ->
  cs = [] \/
  exists d qe rest,
    s !! u = Some d /\ loaded d = true /\ embeddings d <> [] /\
    get_embeddings reply = Some (qe :: rest) /\
    dim qe <> 0%nat /\ Forall (fun row => dim row = dim qe) (embeddings d) /\
    mapM (fun i => chunks d !! i)
         (topK cosine_similarity argsort qe (embeddings d) top_k) = Some cs.
Proof.
  unfold retrieve_relevant_chunks.
  destruct (s !! u) as [d|] eqn:Hd; [|intros [= <-]; now left].
  destruct (loaded d) eqn:Hl; cbn [negb orb]; [|intros [= <-]; now left].
  destruct (embeddings d) as [|v vs] eqn:Hemb; [intros [= <-]; now left|].
  cbn [length Nat.eqb].
  destruct (get_embeddings reply) as [[|qe rest]|];
    try (intros [= <-]; now left).
  destruct (query_similarities _ _ _ _) as [sims|] eqn:Hsims; [|discriminate].
  apply query_similarities_Some in Hsims as (Hdim & Hrows & ->).
  intros Hread. right. exists d, qe, rest. rewrite Hemb.
  split; [reflexivity|]. split; [exact Hl|]. split; [discriminate|].
  split; [reflexivity|]. split; [exact Hdim|]. split; [exact Hrows|].
  exact Hread.
Qed.

(** What [pdf_chat] needs to have retrieved chunks. *)
Lemma pdf_chat_retrieved_inv s u query reply cs :
  (pdf_chat cosine_similarity dim argsort s u query reply).2 = Retrieved cs ->
  exists d qe rest,
    s !! u = Some d /\ loaded d = true /\ embeddings d <> [] /\
    query <> [] /\ get_embeddings reply = Some (qe :: rest) /\
    cs <> [] /\
    mapM (fun i => chunks d !! i) (topK cosine_similarity argsort qe (embeddings d) 3) =
      Some cs.
Proof.
  unfold pdf_chat. destruct (s !! u) as [d|] eqn:Hd; [|discriminate].
  destruct (loaded d) eqn:Hl; simpl; [|discriminate].
  destruct query as [|q0 query']; [discriminate|].
  destruct (retrieve_relevant_chunks _ _ _ _ _ _ _) as [[|c0 cs0]|] eqn:Hr;
    simpl; try discriminate.
  intros [= <-].
  apply retrieve_relevant_chunks_inv in Hr
    as [Hnil|(d' & qe & rest & Hd' & _ & Hne & Hreply & _ & _ & Hread)];
    [discriminate|].
  rewrite Hd in Hd'. injection Hd' as <-.
  exists d, qe, rest.
  split; [reflexivity|]. split; [exact Hl|]. split; [exact Hne|].
  split; [discriminate|]. split; [exact Hreply|]. split; [discriminate|].
  exact Hread.
Qed.
End RetrievalShape.

(** ** Facts about accounts *)

Section AccountFacts.
Variable generate_password_hash : string -> string -> string.
Variable check_password_hash : string -> string -> bool.

Implicit Types (session : session_data) (users : list user_doc).

Lemma find_one_app_l (f : user_doc -> bool) users more d :
  find_one f users = Some d -> find_one f (users ++ more) = Some d.
Proof.
  unfold find_one. induction users as [|x users IH]; simpl; [discriminate|].
  destruct (f x); [auto | exact IH].
Qed.

Lemma find_one_snoc (f : user_doc -> bool) users d :
  find_one f users = None -> f d = true -> find_one f (users ++ [d]) = Some d.
Proof.
  unfold find_one. induction users as [|x users IH]; simpl; intros Hnone Hd.
  - now rewrite Hd.
  - destruct (f x); [discriminate | auto].
Qed.

(** The two ways [signup] can end: one of its four refusals, with nothing
    changed, or a new document at the end of the collection. *)
Lemma signup_cases session users username email password new_id salt now :
  ((signup generate_password_hash session users username email password
           new_id salt now).1 = (session, users) /\
   forall user_id name,
     (signup generate_password_hash session users username email password
             new_id salt now).2 <> SignedUp user_id name) \/
  (strip username <> "" /\ strip email <> "" /\ password <> "" /\
   find_one (fun d => String.eqb (doc_username d) (strip username) ||
                      String.eqb (doc_email d) (strip email)) users = None /\
   find_one (fun d => String.eqb (doc_id d) new_id) users = None /\
   signup generate_password_hash session users username email password
          new_id salt now =
   (Session (Some new_id) (Some (strip username))
            (session_admin session) (session_admin_username session),
    users ++ [UserDoc new_id (strip username) (strip email)
                      (generate_password_hash password salt) now],
    SignedUp new_id (strip username))).
Proof.
  unfold signup.
  destruct (String.eqb_spec (strip username) "") as [|Hu]; [left; split; [reflexivity | discriminate]|].
  destruct (String.eqb_spec (strip email) "") as [|He]; [left; split; [reflexivity | discriminate]|].
  destruct (String.eqb_spec password "") as [|Hp]; [left; split; [reflexivity | discriminate]|].
  cbn [orb].
  destruct (String.length password <? 6)%nat; [left; split; [reflexivity | discriminate]|].
  destruct (find_one _ users) as [d|] eqn:Hfind; [left; split; [reflexivity | discriminate]|].
  destruct (find_one (fun d => String.eqb (doc_id d) new_id) users) as [d|] eqn:Hid;
    [left; split; [reflexivity | discriminate]|].
  right. repeat split; assumption.
Qed.

Lemma find_one_none_Forall (f : user_doc -> bool) users :
  find_one f users = None -> Forall (fun d => f d = false) users.
Proof.
  intros Hnone. apply Forall_forall. intros d Hd.
  apply (find_none f users Hnone). now apply list_elem_of_In.
Qed.

Lemma NoDup_map_snoc {B} (f : user_doc -> B) users d :
  NoDup (map f users) -> Forall (fun x => f x <> f d) users ->
  NoDup (map f (users ++ [d])).
Proof.
  intros Hnd Hnew. rewrite map_app. apply NoDup_app. split; [exact Hnd|].
  split; [|apply NoDup_singleton].
  intros y Hy Hy'%list_elem_of_singleton. subst y.
  apply list_elem_of_In, in_map_iff in Hy as (x & Hx & Hin).
  rewrite Forall_forall in Hnew. apply (Hnew x); [now apply list_elem_of_In | exact Hx].
Qed.

Lemma signup_users_distinct users r :
  users_distinct users ->
  users_distinct (signup_users generate_password_hash users r).
Proof.
  intros (Hid & Hname & Hmail & Hfull). unfold signup_users.
  destruct (signup_cases (req_session r) users (req_username r) (req_email r)
              (req_password r) (req_new_id r) (req_salt r) (req_now r))
    as [[Hsame _]|(Hu & He & _ & Hfree & Hfresh & Hdone)].
  - rewrite Hsame. repeat split; assumption.
  - rewrite Hdone. cbn [fst snd].
    apply find_one_none_Forall in Hfree, Hfresh.
    repeat split.
    + apply NoDup_map_snoc; [exact Hid|].
      eapply Forall_impl; [exact Hfresh|]. cbn. intros d Hd Heq.
      rewrite Heq, String.eqb_refl in Hd. discriminate.
    + apply NoDup_map_snoc; [exact Hname|].
      eapply Forall_impl; [exact Hfree|]. cbn. intros d Hd Heq.
      rewrite Heq, String.eqb_refl in Hd. discriminate.
    + apply NoDup_map_snoc; [exact Hmail|].
      eapply Forall_impl; [exact Hfree|]. cbn. intros d Hd Heq.
      rewrite Heq, String.eqb_refl, orb_true_r in Hd. discriminate.
    + apply Forall_app. split; [exact Hfull|]. repeat constructor; assumption.
Qed.

Lemma signups_users_distinct users rs :
  users_distinct users ->
  users_distinct (signups generate_password_hash users rs).
Proof.
  revert users. unfold signups.
  induction rs as [|r rs IH]; intros users Hok; simpl; [exact Hok|].
  apply IH. now apply signup_users_distinct.
Qed.

(** Sign-ups only add documents, at the end. *)
Lemma signup_users_extends users r :
  exists more, signup_users generate_password_hash users r = users ++ more.
Proof.
  unfold signup_users.
  destruct (signup_cases (req_session r) users (req_username r) (req_email r)
              (req_password r) (req_new_id r) (req_salt r) (req_now r))
    as [[Hsame _]|(_ & _ & _ & _ & _ & Hdone)].
  - rewrite Hsame. exists []. now rewrite app_nil_r.
  - rewrite Hdone. eauto.
Qed.

Lemma signups_extends users rs :
  exists more, signups generate_password_hash users rs = users ++ more.
Proof.
  revert users. unfold signups.
  induction rs as [|r rs IH]; intros users; simpl.
  - exists []. now rewrite app_nil_r.
  - destruct (signup_users_extends users r) as [m1 ->].
    destruct (IH (users ++ m1)) as [m2 ->].
    exists (m1 ++ m2). now rewrite app_assoc.
Qed.

(** What [login] answers for a user name that is found with a password
    that checks. *)
Lemma login_found session users username password d :
  strip username <> "" -> password <> "" ->
  find_one (fun x => String.eqb (doc_username x) (strip username)) users = Some d ->
  check_password_hash (doc_password_hash d) password = true ->
  login check_password_hash session users username password =
  (Session (Some (doc_id d)) (Some (doc_username d))
           (session_admin session) (session_admin_username session),
   LoggedIn (doc_id d) (doc_username d)).
Proof.
  intros Hu Hp Hfind Hcheck. unfold login.
  destruct (String.eqb_spec (strip username) ""); [contradiction|].
  destruct (String.eqb_spec password ""); [contradiction|].
  cbn [orb]. now rewrite Hfind, Hcheck.
Qed.

(** A login that succeeds is the login of a document of the collection. *)
Lemma login_cases session users username password :
  login check_password_hash session users username password =
    (session, CredentialsRequired) \/
  login check_password_hash session users username password =
    (session, InvalidCredentials) \/
  exists d, d ∈ users /\
    login check_password_hash session users username password =
    (Session (Some (doc_id d)) (Some (doc_username d))
             (session_admin session) (session_admin_username session),
     LoggedIn (doc_id d) (doc_username d)).
Proof.
  unfold login. destruct (_ || _); [now left|].
  destruct (find_one _ users) as [d|] eqn:Hfind; [|now right; left].
  destruct (check_password_hash _ _); [|now right; left].
  right; right. exists d. split; [|reflexivity].
  apply find_some in Hfind as [Hin _]. now apply list_elem_of_In.
Qed.

Lemma admin_login_true session username password :
  (admin_login session username password).2 = true <->
  strip username = "admin" /\ password = "admin".
Proof.
  unfold admin_login.
  destruct (String.eqb_spec (strip username) "admin") as [Hu|Hu];
    destruct (String.eqb_spec password "admin") as [Hp|Hp]; simpl;
    split; try tauto; try discriminate; intros [? ?]; contradiction.
Qed.
End AccountFacts.

(** ** Facts about the routes and one client's requests *)

Section ClientFacts.
Context {char vec : Type}.
Variable isspace : char -> bool.
Variable cosine_similarity : vec -> vec -> Q.
Variable dim : vec -> nat.
Variable argsort : list Q -> list nat.
Variable newline : char.
Variable generate_password_hash : string -> string -> string.
Variable check_password_hash : string -> string -> bool.

Implicit Types (s : gmap string (pdf_data char vec)) (u : string)
  (session : session_data) (st : app_state char vec)
  (r : request char vec) (rs : list (request char vec)).

Lemma extract_text_from_pdf_acc (pages : list (list char)) (acc : list char) :
  fold_left (fun text page => text ++ (page ++ [newline])) pages acc =
  acc ++ concat (map (fun page => page ++ [newline]) pages).
Proof.
  revert acc. induction pages as [|page pages IH]; intros acc; simpl.
  - now rewrite app_nil_r.
  - rewrite IH. now rewrite <- app_assoc.
Qed.

(** The extracted text is the pages' texts in page order, a newline after
    each. *)
Lemma extract_text_from_pdf_concat (pages : list (list char)) :
  extract_text_from_pdf newline pages =
  concat (map (fun page => page ++ [newline]) pages).
Proof. unfold extract_text_from_pdf. now rewrite extract_text_from_pdf_acc. Qed.

Lemma extract_text_from_pdf_blank (pages : list (list char)) :
  isspace newline = true ->
  Forall (fun page => blank isspace page = true) pages ->
  blank isspace (extract_text_from_pdf newline pages) = true.
Proof.
  intros Hnl Hpages. rewrite extract_text_from_pdf_concat. unfold blank in *.
  induction Hpages as [|page pages Hpage Hpages IH]; [reflexivity|].
  cbn [map concat]. rewrite !forallb_app, Hpage, IH. simpl. now rewrite Hnl.
Qed.

(** A request of a client without [user_id] in its session leaves the
    store alone, unless it is a sign-up or a login. *)
Lemma handle_anonymous st r :
  session_user_id (st_session st) = None ->
  stays_anonymous [r] = true ->
  session_user_id
    (st_session (handle isspace cosine_similarity dim argsort newline
                        generate_password_hash check_password_hash st r)) = None /\
  st_store (handle isspace cosine_similarity dim argsort newline
                   generate_password_hash check_password_hash st r) = st_store st.
Proof.
  intros Hanon Hr.
  destruct r as [un em pw nid salt now|un pw| |un pw| |file reply|query reply];
    simpl in Hr; try discriminate; simpl.
  - unfold logout. rewrite Hanon. auto.
  - split; [|reflexivity]. unfold admin_login. destruct (_ && _); simpl; exact Hanon.
  - auto.
  - unfold upload_pdf_route, require_auth. rewrite Hanon. auto.
  - unfold pdf_chat_route, require_auth. rewrite Hanon. auto.
Qed.

(** Only an admin login with the admin credentials sets the admin flag. *)
Lemma handle_admin_flag st r :
  session_admin
    (st_session (handle isspace cosine_similarity dim argsort newline
                        generate_password_hash check_password_hash st r)) = Some true ->
  session_admin (st_session st) = Some true \/ admin_password_given [r] = true.
Proof.
  destruct r as [un em pw nid salt now|un pw| |un pw| |file reply|query reply];
    simpl.
  - destruct (signup_cases generate_password_hash (st_session st) (st_users st)
                un em pw nid salt now) as [[Hsame _]|(_ & _ & _ & _ & _ & Hdone)].
    + destruct (signup _ _ _ _ _ _ _ _ _) as [[session users] res].
      simpl in Hsame. injection Hsame as -> ->. simpl. auto.
    + rewrite Hdone. simpl. auto.
  - destruct (login_cases check_password_hash (st_session st) (st_users st) un pw)
      as [H|[H|(d & _ & H)]]; rewrite H; simpl; auto.
  - discriminate.
  - unfold admin_login. destruct (_ && _); simpl; auto.
  - discriminate.
  - auto.
  - auto.
Qed.

(** Requests keep the session's user registered. *)
Lemma handle_session_registered st r :
  session_registered st ->
  session_registered (handle isspace cosine_similarity dim argsort newline
                             generate_password_hash check_password_hash st r).
Proof.
  intros Hreg uid.
  destruct r as [un em pw nid salt now|un pw| |un pw| |file reply|query reply];
    simpl.
  - destruct (signup_cases generate_password_hash (st_session st) (st_users st)
                un em pw nid salt now) as [[Hsame _]|(_ & _ & _ & _ & _ & Hdone)].
    + destruct (signup _ _ _ _ _ _ _ _ _) as [[session users] res].
      simpl in Hsame. injection Hsame as -> ->. simpl. apply Hreg.
    + rewrite Hdone. simpl. intros [= <-].
      eexists. split; [apply elem_of_app; right; apply list_elem_of_singleton; reflexivity|].
      reflexivity.
  - destruct (login_cases check_password_hash (st_session st) (st_users st) un pw)
      as [H|[H|(d & Hd & H)]]; rewrite H; simpl; try apply Hreg.
    intros [= <-]. eauto.
  - discriminate.
  - unfold admin_login. destruct (_ && _); simpl; apply Hreg.
  - apply Hreg.
  - apply Hreg.
  - apply Hreg.
Qed.
End ClientFacts.

(** ** Further properties of the chunker *)

(** X1. A call of [chunk_text] returns exactly when the text is empty or
    [overlap < chunk_size]; in every other case the loop never exits. *)
Theorem chunk_text_returns_iff {char : Type} (text : list char) (cs ov : Z) :
  (exists fuel chunks, chunk_text fuel text cs ov = Some chunks) <->
  (text = [] \/ ov < cs).
Proof.
  split.
  - intros (fuel & chunks & Hrun).
    destruct text as [|c text]; [now left|]. right.
    destruct (Z.lt_ge_cases ov cs) as [Hlt|Hge]; [exact Hlt|].
    rewrite chunk_text_never_returns in Hrun by (lia || discriminate).
    discriminate.
  - intros [->|Hov].
    + exists 0%nat, []. apply chunk_text_empty.
    + destruct (chunk_loop_terminates (length text) text cs ov 0 [] Hov)
        as [chunks Hrun]; [unfold len; lia|].
      exists (length text), chunks. exact Hrun.
Qed.

(** X2. With [overlap < chunk_size] and [step = chunk_size - overlap],
    [chunk_text] returns the [ceil(len(text) / step)] slices
    [text[i*step : i*step + chunk_size]], for [i = 0, 1, ...], in that
    order. *)
Theorem chunk_text_closed_form {char : Type} (text : list char) (cs ov : Z)
    (fuel : nat) :
  ov < cs ->
  (Z.to_nat ((len text + (cs - ov) - 1) / (cs - ov)) <= fuel)%nat ->
  chunk_text fuel text cs ov =
  Some (map (fun i : nat =>
               py_slice text (Z.of_nat i * (cs - ov)) (Z.of_nat i * (cs - ov) + cs))
            (seq 0 (Z.to_nat ((len text + (cs - ov) - 1) / (cs - ov))))).
Proof.
  intros Hov Hfuel. unfold chunk_text.
  rewrite chunk_loop_closed_form; rewrite ?Z.sub_0_r; [reflexivity|exact Hov|exact Hfuel].
Qed.

Lemma chunk_text_closed_form_witness :
  (1 < 4 /\
   (Z.to_nat ((len (text_of "ABCDEFGHIJ") + (4 - 1) - 1) / (4 - 1)) <= 4)%nat) /\
  chunk_text 4 (text_of "ABCDEFGHIJ") 4 1 =
  Some (map (fun i : nat =>
               py_slice (text_of "ABCDEFGHIJ")
                        (Z.of_nat i * (4 - 1)) (Z.of_nat i * (4 - 1) + 4))
            (seq 0 (Z.to_nat ((len (text_of "ABCDEFGHIJ") + (4 - 1) - 1) / (4 - 1))))).
Proof.
  split; [split; [lia | vm_compute; lia]|].
  apply (chunk_text_closed_form (text_of "ABCDEFGHIJ") 4 1 4);
    [lia | vm_compute; lia].
Defined.

(** X3. With [0 < chunk_size] and [overlap < chunk_size], no chunk is
    empty and no chunk is longer than [chunk_size]. *)
Theorem chunk_text_chunk_sizes {char : Type} (text : list char) (cs ov : Z)
    (fuel : nat) (chunks : list (list char)) :
  0 < cs -> ov < cs ->
  chunk_text fuel text cs ov = Some chunks ->
  Forall (fun c => 1 <= len c <= cs) chunks.
Proof.
  intros Hcs Hov Hrun.
  rewrite (chunk_text_shape fuel text cs ov chunks Hov Hrun).
  apply Forall_forall. intros c Hc.
  apply list_elem_of_In, in_map_iff in Hc as (i & <- & Hi).
  apply in_seq in Hi.
  destruct (chunk_start_in_text (len text) (cs - ov) i) as [Hlo Hhi];
    [lia | apply len_nonneg | lia |].
  rewrite py_slice_length by lia. lia.
Qed.

Lemma chunk_text_chunk_sizes_witness :
  (0 < 4 /\ 1 < 4 /\
   chunk_text 4 (text_of "ABCDEFGHIJ") 4 1 =
     Some (map text_of ["ABCD"; "DEFG"; "GHIJ"; "J"])) /\
  Forall (fun c => 1 <= len c <= 4) (map text_of ["ABCD"; "DEFG"; "GHIJ"; "J"]).
Proof.
  split; [repeat split; lia|].
  apply (chunk_text_chunk_sizes (text_of "ABCDEFGHIJ") 4 1 4); [lia | lia |].
  reflexivity.
Defined.

(** X4. With [0 <= overlap < chunk_size] the text can be put together again
    from the chunks: the first chunk, followed by every later chunk without
    its first [overlap] characters, is the text. Nothing is lost and nothing
    but the overlaps is repeated. *)
Theorem chunk_text_reassembles {char : Type} (text : list char) (cs ov : Z)
    (fuel : nat) (chunks : list (list char)) :
  0 <= ov < cs ->
  chunk_text fuel text cs ov = Some chunks ->
  match chunks with
  | [] => text = []
  | first :: rest => first ++ concat (map (drop (Z.to_nat ov)) rest) = text
  end.
Proof.
  intros Hov Hrun. unfold chunk_text in Hrun.
  destruct (Z.lt_ge_cases 0 (len text)) as [Hne|Hempty].
  - destruct fuel as [|fuel].
    { simpl in Hrun. destruct (Z.ltb_spec 0 (len text)); [discriminate | lia]. }
    rewrite chunk_loop_step, chunk_loop_acc in Hrun by assumption.
    destruct (chunk_loop fuel text cs ov (0 + cs - ov) []) as [rest|] eqn:Hrest;
      [|discriminate].
    injection Hrun as <-. cbn [app].
    apply chunk_loop_reassemble in Hrest; [|lia..].
    rewrite Hrest, py_slice_nonneg by lia.
    replace (Z.to_nat (0 + cs - ov + ov)) with (Z.to_nat cs) by lia.
    replace (Z.to_nat (0 + cs - 0)) with (Z.to_nat cs) by lia.
    simpl. apply take_drop.
  - rewrite chunk_loop_done in Hrun by assumption. injection Hrun as <-.
    destruct text; [reflexivity|]. unfold len in Hempty. simpl in Hempty. lia.
Qed.

Lemma chunk_text_reassembles_witness :
  (0 <= 1 < 4 /\
   chunk_text 4 (text_of "ABCDEFGHIJ") 4 1 =
     Some (map text_of ["ABCD"; "DEFG"; "GHIJ"; "J"])) /\
  text_of "ABCD" ++ concat (map (drop (Z.to_nat 1)) (map text_of ["DEFG"; "GHIJ"; "J"])) =
  text_of "ABCDEFGHIJ".
Proof.
  split; [split; [lia | reflexivity]|].
  apply (chunk_text_reassembles (text_of "ABCDEFGHIJ") 4 1 4
           (map text_of ["ABCD"; "DEFG"; "GHIJ"; "J"])); [lia | reflexivity].
Defined.

(** X5. With [0 <= overlap < chunk_size], each chunk after the first begins
    with what the chunk before it holds beyond its first
    [chunk_size - overlap] characters: consecutive chunks share exactly
    that stretch of the text. *)
Theorem chunk_text_consecutive_overlap {char : Type} (text : list char)
    (cs ov : Z) (fuel : nat) (chunks : list (list char)) (i : nat)
    (c c' : list char) :
  0 <= ov < cs ->
  chunk_text fuel text cs ov = Some chunks ->
  chunks !! i = Some c -> chunks !! S i = Some c' ->
  take (Z.to_nat ov) c' = drop (Z.to_nat (cs - ov)) c.
Proof.
  intros Hov Hrun Hc Hc'.
  rewrite (chunk_text_shape fuel text cs ov chunks ltac:(lia) Hrun) in Hc, Hc'.
  rewrite list_lookup_fmap in Hc, Hc'.
  destruct (seq _ _ !! i) as [j|] eqn:Hj; [|discriminate].
  destruct (seq _ _ !! S i) as [j'|] eqn:Hj'; [|discriminate].
  apply lookup_seq in Hj as [-> _]. apply lookup_seq in Hj' as [-> _].
  cbn [fmap option_fmap option_map Nat.add] in Hc, Hc'.
  injection Hc as <-. injection Hc' as <-.
  assert (Ha : 0 <= Z.of_nat i * (cs - ov)) by nia.
  replace (Z.of_nat (S i) * (cs - ov))
    with (Z.of_nat i * (cs - ov) + (cs - ov)) by lia.
  set (a := Z.of_nat i * (cs - ov)) in *.
  rewrite !py_slice_nonneg by lia.
  rewrite take_take, skipn_firstn_comm, drop_drop.
  f_equal; [lia|]. f_equal. lia.
Qed.

Lemma chunk_text_consecutive_overlap_witness :
  (0 <= 1 < 4 /\
   chunk_text 4 (text_of "ABCDEFGHIJ") 4 1 =
     Some (map text_of ["ABCD"; "DEFG"; "GHIJ"; "J"]) /\
   map text_of ["ABCD"; "DEFG"; "GHIJ"; "J"] !! 1%nat = Some (text_of "DEFG") /\
   map text_of ["ABCD"; "DEFG"; "GHIJ"; "J"] !! 2%nat = Some (text_of "GHIJ")) /\
  take (Z.to_nat 1) (text_of "GHIJ") = drop (Z.to_nat (4 - 1)) (text_of "DEFG").
Proof.
  split; [repeat split; lia|].
  apply (chunk_text_consecutive_overlap (text_of "ABCDEFGHIJ") 4 1 4
           (map text_of ["ABCD"; "DEFG"; "GHIJ"; "J"]) 1);
    [lia | reflexivity..].
Defined.

(** ** Further properties of ranking, retrieval and the store *)

Section RetrievalExtras.
Context {char vec : Type}.
Variable isspace : char -> bool.
Variable cosine_similarity : vec -> vec -> Q.
Variable dim : vec -> nat.
Variable argsort : list Q -> list nat.

Implicit Types (s : gmap string (pdf_data char vec)) (u : string)
  (text query : list char) (reply : provider_reply vec).

(** X6. With a sort that meets NumPy's contract, whatever [k] is, the
    ranking names no position twice and only positions of the corpus. *)
Theorem topK_distinct_positions_of_corpus (query : vec) (corpus : list vec) (k : Z) :
  argsort_spec argsort ->
  NoDup (topK cosine_similarity argsort query corpus k) /\
  Forall (fun i => (i < length corpus)%nat)
         (topK cosine_similarity argsort query corpus k).
Proof.
  intros Hspec. split; [apply (top_indices_NoDup argsort Hspec)|].
  apply Forall_forall. intros i Hi.
  apply (top_indices_in_range argsort Hspec) in Hi.
  now rewrite length_map in Hi.
Qed.

(** X7. With a sort that meets NumPy's contract, the position the ranking
    lists first holds a vector whose similarity to the query no vector of
    the corpus exceeds. *)
Theorem topK_first_is_most_similar (query : vec) (corpus : list vec) (k : Z)
    (a b : nat) :
  argsort_spec argsort ->
  topK cosine_similarity argsort query corpus k !! 0%nat = Some a ->
  (b < length corpus)%nat ->
  (score (map (cosine_similarity query) corpus) b <=
   score (map (cosine_similarity query) corpus) a)%Q.
Proof.
  intros Hspec Ha Hb.
  apply (top_indices_first_is_max argsort Hspec _ k); [exact Ha|].
  now rewrite length_map.
Qed.


(** X9. For an entry with no fewer chunks than vectors and [top_k >= 1],
    with a sort that meets NumPy's contract, retrieval returns the empty
    list exactly when the user has no entry, the entry is not loaded or
    holds no vectors, or embedding the query fails or yields nothing. *)
Theorem retrieve_relevant_chunks_empty_iff s u (top_k : Z) reply :
  argsort_spec argsort ->
  0 < top_k ->
  (forall d, s !! u = Some d ->
             (length (embeddings d) <= length (chunks d))%nat) ->
  retrieve_relevant_chunks cosine_similarity dim argsort s u top_k reply = Some [] <->
  (s !! u = None \/
   (exists d, s !! u = Some d /\ (loaded d = false \/ embeddings d = [])) \/
   falsy (get_embeddings reply) = true).
Proof.
  intros Hspec Hk Hlen. split; [|apply retrieve_relevant_chunks_nothing].
  unfold retrieve_relevant_chunks.
  destruct (s !! u) as [d|] eqn:Hd; [|now left]. intros Hnothing. right.
  destruct (loaded d) eqn:Hl; [|left; eauto].
  destruct (embeddings d) as [|v vs] eqn:Hemb; [left; eauto|].
  cbn [negb orb length Nat.eqb] in Hnothing.
  destruct (get_embeddings reply) as [[|qe rest]|] eqn:Hreply;
    [now right | | now right].
  exfalso.
  destruct (query_similarities _ _ _ _) as [sims|] eqn:Hsims; [|discriminate].
  apply query_similarities_Some in Hsims as (_ & _ & ->).
  apply length_mapM in Hnothing.
  rewrite (top_indices_length_pos argsort Hspec) in Hnothing by exact Hk.
  unfold len in Hnothing. rewrite length_map in Hnothing.
  cbn [length] in Hnothing. lia.
Qed.


(** X11. [pdf_chat] hands chunks to the prompt only for a user with a
    loaded entry, a non-empty message and an embedded query; the chunks are
    chunks of that entry, at least one and at most three. *)
Theorem pdf_chat_retrieved_only_if s u query reply (cs : list (list char)) :
  (pdf_chat cosine_similarity dim argsort s u query reply).2 = Retrieved cs ->
  (exists d, s !! u = Some d /\ loaded d = true /\
             forall c, c ∈ cs -> c ∈ chunks d) /\
  query <> [] /\
  falsy (get_embeddings reply) = false /\
  (1 <= length cs <= 3)%nat.
Proof.
  intros Hq.
  destruct (pdf_chat_retrieved cosine_similarity dim argsort s u query reply cs Hq)
    as (d & Hd & Hl & Hsub).
  destruct (pdf_chat_retrieved_inv cosine_similarity dim argsort s u query reply cs Hq)
    as (d' & qe & rest & Hd' & _ & _ & Hquery & Hreply & Hne & Hread).
  split; [exists d; auto|]. split; [exact Hquery|].
  split; [now rewrite Hreply|].
  apply length_mapM in Hread. unfold topK in Hread.
  pose proof (top_indices_length_le argsort
                (map (cosine_similarity qe) (embeddings d')) 3 ltac:(lia)) as Hle.
  split; [destruct cs; [congruence | simpl; lia] | lia].
Qed.

(** X12. After the logout of a user with a non-empty id that user has no
    entry, whatever was uploaded before, and every query of that user is
    answered with the no-document error. *)
Theorem logout_then_query_fails s u query reply :
  u <> "" ->
  logout s (Some u) !! u = None /\
  pdf_chat cosine_similarity dim argsort (logout s (Some u)) u query reply =
    (logout s (Some u), NoDocumentLoaded).
Proof.
  intros Hu.
  assert (Hgone : logout s (Some u) !! u = None).
  { unfold logout. destruct (String.eqb_spec u ""); [contradiction|]. simpl.
    case_bool_decide as Hin; [apply lookup_delete_eq|].
    now apply eq_None_not_Some. }
  split; [exact Hgone|]. now apply pdf_chat_no_entry.
Qed.
End RetrievalExtras.

Lemma topK_distinct_positions_of_corpus_witness :
  let query := [1; 0]%Q in
  let corpus := [[3#5; 4#5]; [0; 1]; [1; 0]; [3#5; -4#5]]%Q in
  argsort_spec insertion_argsort /\
  NoDup (topK dot insertion_argsort query corpus 3) /\
  Forall (fun i => (i < length corpus)%nat) (topK dot insertion_argsort query corpus 3).
Proof.
  intros query corpus. split; [apply insertion_argsort_spec|].
  apply (topK_distinct_positions_of_corpus dot insertion_argsort query corpus 3).
  apply insertion_argsort_spec.
Defined.

Lemma topK_first_is_most_similar_witness :
  let query := [1; 0]%Q in
  let corpus := [[3#5; 4#5]; [0; 1]; [1; 0]; [3#5; -4#5]]%Q in
  (argsort_spec insertion_argsort /\
   topK dot insertion_argsort query corpus 2 !! 0%nat = Some 2%nat /\
   (1 < length corpus)%nat) /\
  (score (map (dot query) corpus) 1 <= score (map (dot query) corpus) 2)%Q.
Proof.
  intros query corpus.
  split; [split; [apply insertion_argsort_spec | split; [reflexivity | simpl; lia]]|].
  apply (topK_first_is_most_similar dot insertion_argsort query corpus 2 2%nat 1%nat);
    [apply insertion_argsort_spec | reflexivity | simpl; lia].
Defined.


Lemma retrieve_relevant_chunks_empty_iff_witness :
  (argsort_spec insertion_argsort /\ 0 < 3 /\
   forall d, two_chunk_store !! "bob" = Some d ->
             (length (embeddings d) <= length (chunks d))%nat) /\
  (retrieve_relevant_chunks dot vec_dim insertion_argsort two_chunk_store "bob" 3
     (Data [[0; 1]%Q]) = Some [] <->
   (two_chunk_store !! "bob" = None \/
    (exists d, two_chunk_store !! "bob" = Some d /\
               (loaded d = false \/ embeddings d = [])) \/
    falsy (get_embeddings (Data [[0; 1]%Q])) = true)).
Proof.
  assert (Hbob : forall d : pdf_data Ascii.ascii (list Q),
             two_chunk_store !! "bob" = Some d ->
             (length (embeddings d) <= length (chunks d))%nat)
    by (intros d Hd; discriminate Hd).
  split; [split; [apply insertion_argsort_spec | split; [lia | exact Hbob]]|].
  apply (retrieve_relevant_chunks_empty_iff dot vec_dim insertion_argsort
           two_chunk_store "bob" 3 (Data [[0; 1]%Q]));
    [apply insertion_argsort_spec | lia | exact Hbob].
Defined.


Lemma pdf_chat_retrieved_only_if_witness :
  let asked := pdf_chat dot vec_dim insertion_argsort alice_store "alice"
                 (text_of "what is it about?") (Data [[1; 0]%Q]) in
  asked.2 = Retrieved [text_of "first document"] /\
  (exists d, alice_store !! "alice" = Some d /\ loaded d = true /\
             forall c, c ∈ [text_of "first document"] -> c ∈ chunks d) /\
  text_of "what is it about?" <> [] /\
  falsy (get_embeddings (Data [[1; 0]%Q])) = false /\
  (1 <= length [text_of "first document"] <= 3)%nat.
Proof.
  intros asked. split; [reflexivity|].
  apply (pdf_chat_retrieved_only_if dot vec_dim insertion_argsort alice_store
           "alice" (text_of "what is it about?") (Data [[1; 0]%Q])).
  reflexivity.
Defined.

Lemma logout_then_query_fails_witness :
  ("alice" <> "") /\
  logout alice_store (Some "alice") !! "alice" = None /\
  pdf_chat dot vec_dim insertion_argsort (logout alice_store (Some "alice")) "alice"
    (text_of "what is it about?") (Data [[1; 0]%Q]) =
    (logout alice_store (Some "alice"), NoDocumentLoaded).
Proof.
  split; [discriminate|].
  apply (logout_then_query_fails dot vec_dim insertion_argsort alice_store "alice").
  discriminate.
Defined.

(** ** Properties of the upload handler *)

Section UploadExtras.
Context {char vec : Type}.
Variable isspace : char -> bool.
Variable dim : vec -> nat.
Variable newline : char.

Implicit Types (s : gmap string (pdf_data char vec)) (u : string)
  (reply : provider_reply vec).

(** X13. A successful upload reports [ceil(len(text) / 800)] chunks, at
    least one, and that many chunks are stored for the user. *)
Theorem upload_pdf_reports_chunk_count s u (text : list char) reply s' (n : nat) :
  upload_pdf isspace dim s u text reply = (s', Uploaded n) ->
  Z.of_nat n = (len text + 799) / 800 /\
  (1 <= n)%nat /\
  exists d, s' !! u = Some d /\ length (chunks d) = n /\ loaded d = true.
Proof.
  intros Hup.
  assert (Hblank : blank isspace text = false).
  { unfold upload_pdf in Hup. destruct (blank isspace text); [discriminate | reflexivity]. }
  destruct (upload_pdf_uploaded isspace dim s u text reply s' n Hup)
    as (chunks2 & vectors2 & Hc & _ & _ & -> & ->).
  assert (Hne : text <> []) by (intros ->; discriminate).
  pose proof (chunk_text_default_nonempty text chunks2 Hne Hc) as Hsome.
  unfold chunk_text_default in Hc.
  pose proof (chunk_text_shape (length text) text 1000 200 chunks2
                ltac:(lia) Hc) as Hshape.
  assert (Hcount : length chunks2 = Z.to_nat ((len text + 799) / 800)).
  { rewrite Hshape at 1. rewrite length_map, length_seq.
    replace (len text + (1000 - 200) - 1) with (len text + 799) by lia.
    reflexivity. }
  split; [|split].
  - rewrite Hcount. pose proof (len_nonneg text).
    assert (0 <= (len text + 799) / 800) by (apply Z.div_pos; lia). lia.
  - destruct chunks2; [congruence | simpl; lia].
  - eexists. rewrite lookup_insert_eq. split; [reflexivity|]. split; reflexivity.
Qed.

(** X14. Whatever [upload_pdf] answers other than success (no file, no
    file name, an extraction that raises, no text, a failed embedding), the
    store is the one it started from; on success only the user's entry is
    written. *)
Theorem upload_pdf_handler_errors_keep_store s u (file : option (pdf_upload char))
    reply s' (response : upload_response) :
  upload_pdf_handler isspace dim newline s u file reply = (s', response) ->
  ((forall n, response <> Processed (Uploaded n)) -> s' = s) /\
  (forall n, response = Processed (Uploaded n) ->
     exists d, s' = <[u := d]> s /\ length (chunks d) = n /\ loaded d = true).
Proof.
  unfold upload_pdf_handler. intros Hrun.
  destruct file as [pdf_file|]; [|injection Hrun as <- <-; split; [auto | discriminate]].
  destruct (String.eqb _ _); [injection Hrun as <- <-; split; [auto | discriminate]|].
  destruct (pdf_pages pdf_file) as [pages|];
    [|injection Hrun as <- <-; split; [auto | discriminate]].
  destruct (upload_pdf_cases isspace dim s u (extract_text_from_pdf newline pages) reply)
    as [[H _]|[[H _]|[[H _]|(chunks2 & vectors2 & _ & _ & _ & H)]]];
    rewrite H in Hrun; injection Hrun as <- <-.
  - split; [auto | discriminate].
  - split; [auto | discriminate].
  - split; [auto | discriminate].
  - split; [intros Hnot; now destruct (Hnot (length chunks2))|].
    intros n [= <-]. eexists. split; [reflexivity|]. split; reflexivity.
Qed.

(** X15. A PDF without pages, or whose pages all hold only whitespace, is
    answered with the could-not-extract error whatever the embedding
    provider would reply, and the store is left as it was. *)
Theorem upload_pdf_handler_blank_pdf s u (name : string)
    (pages : list (list char)) reply :
  isspace newline = true ->
  name <> "" ->
  Forall (fun page => blank isspace page = true) pages ->
  upload_pdf_handler isspace dim newline s u (Some (PdfUpload name (Some pages))) reply =
  (s, Processed ExtractionEmpty).
Proof.
  intros Hnl Hname Hpages. unfold upload_pdf_handler. cbn [pdf_filename pdf_pages].
  destruct (String.eqb_spec name ""); [contradiction|].
  unfold upload_pdf.
  now rewrite (extract_text_from_pdf_blank isspace newline pages Hnl Hpages).
Qed.
End UploadExtras.

Lemma upload_pdf_reports_chunk_count_witness :
  let up := upload_pdf ascii_isspace vec_dim alice_store "alice"
              (text_of "second document") (Data [[0; 1]%Q]) in
  up = (up.1, Uploaded 1) /\
  Z.of_nat 1 = (len (text_of "second document") + 799) / 800 /\
  (1 <= 1)%nat /\
  exists d, up.1 !! "alice" = Some d /\ length (chunks d) = 1%nat /\ loaded d = true.
Proof.
  intros up. split; [reflexivity|].
  apply (upload_pdf_reports_chunk_count ascii_isspace vec_dim alice_store "alice"
           (text_of "second document") (Data [[0; 1]%Q]) up.1 1%nat).
  reflexivity.
Defined.

Lemma upload_pdf_handler_errors_keep_store_witness :
  let run := upload_pdf_handler ascii_isspace vec_dim newline_ascii alice_store "alice"
               (Some (PdfUpload "b.pdf" (Some [text_of "page"]))) Raised in
  run = (alice_store, Processed EmbeddingFailed) /\
  ((forall n, Processed EmbeddingFailed <> Processed (Uploaded n)) ->
   alice_store = alice_store) /\
  (forall n, Processed EmbeddingFailed = Processed (Uploaded n) ->
     exists d : pdf_data Ascii.ascii (list Q),
       alice_store = <["alice" := d]> alice_store /\
       length (chunks d) = n /\ loaded d = true).
Proof.
  intros run. split; [reflexivity|].
  apply (upload_pdf_handler_errors_keep_store ascii_isspace vec_dim newline_ascii
           alice_store "alice" (Some (PdfUpload "b.pdf" (Some [text_of "page"])))
           Raised alice_store (Processed EmbeddingFailed)).
  reflexivity.
Defined.

Lemma upload_pdf_handler_blank_pdf_witness :
  (ascii_isspace newline_ascii = true /\ "scan.pdf" <> "" /\
   Forall (fun page => blank ascii_isspace page = true) [text_of "  "; text_of ""]) /\
  upload_pdf_handler ascii_isspace vec_dim newline_ascii alice_store "alice"
    (Some (PdfUpload "scan.pdf" (Some [text_of "  "; text_of ""])))
    (Data [[1; 0]%Q]) =
  (alice_store, Processed ExtractionEmpty).
Proof.
  split; [split; [reflexivity | split; [discriminate | repeat constructor]]|].
  apply (upload_pdf_handler_blank_pdf ascii_isspace vec_dim newline_ascii alice_store
           "alice" "scan.pdf" [text_of "  "; text_of ""] (Data [[1; 0]%Q]));
    [reflexivity | discriminate | repeat constructor].
Defined.

(** ** Properties of accounts and sessions *)

Section AccountExtras.
Variable generate_password_hash : string -> string -> string.
Variable check_password_hash : string -> string -> bool.

(** X16. After any sequence of sign-ups, from any clients, on the empty
    collection, no two documents share an id, a user name or an email, and
    no stored user name or email is empty. *)
Theorem signups_keep_users_distinct (rs : list signup_request) :
  users_distinct (signups generate_password_hash [] rs).
Proof.
  apply signups_users_distinct.
  repeat split; simpl; constructor.
Qed.

(** X17. After a successful sign-up, and whatever sign-ups follow, a login
    with the same user name (up to surrounding whitespace) and the same
    password succeeds, provided the hash of that password checks against
    it; the session then holds the id given at sign-up and the stripped
    user name. *)
Theorem signup_then_login (session session' : session_data)
    (users users' : list user_doc)
    (username email password new_id salt : string) (now : Z)
    (user_id name : string) (rs : list signup_request)
    (session2 : session_data) (username2 : string) :
  signup generate_password_hash session users username email password
         new_id salt now = (session', users', SignedUp user_id name) ->
  check_password_hash (generate_password_hash password salt) password = true ->
  strip username2 = strip username ->
  user_id = new_id /\ name = strip username /\
  login check_password_hash session2 (signups generate_password_hash users' rs)
        username2 password =
  (Session (Some user_id) (Some name)
           (session_admin session2) (session_admin_username session2),
   LoggedIn user_id name).
Proof.
  intros Hsignup Hcheck Hsame.
  destruct (signup_cases generate_password_hash session users username email
              password new_id salt now)
    as [[_ Hnot]|(Hu & _ & Hp & Hfree & _ & Hdone)].
  { rewrite Hsignup in Hnot. now destruct (Hnot user_id name). }
  rewrite Hdone in Hsignup. injection Hsignup as <- <- <- <-.
  split; [reflexivity|]. split; [reflexivity|].
  destruct (signups_extends generate_password_hash
              (users ++ [UserDoc new_id (strip username) (strip email)
                                 (generate_password_hash password salt) now]) rs)
    as [more ->].
  set (d := UserDoc new_id (strip username) (strip email)
                    (generate_password_hash password salt) now).
  apply (login_found check_password_hash session2 _ username2 password d).
  - now rewrite Hsame.
  - exact Hp.
  - rewrite Hsame. apply find_one_app_l, find_one_snoc.
    + apply find_one_none_Forall in Hfree. unfold find_one.
      destruct (find _ users) as [x|] eqn:Hfind; [|reflexivity].
      apply find_some in Hfind as [Hin Hx].
      rewrite Forall_forall in Hfree.
      specialize (Hfree x ltac:(now apply list_elem_of_In)). cbn in Hfree.
      rewrite Hx in Hfree. discriminate.
    + simpl. apply String.eqb_refl.
  - exact Hcheck.
Qed.
End AccountExtras.

Section ClientExtras.
Context {char vec : Type}.
Variable isspace : char -> bool.
Variable cosine_similarity : vec -> vec -> Q.
Variable dim : vec -> nat.
Variable argsort : list Q -> list nat.
Variable newline : char.
Variable generate_password_hash : string -> string -> string.
Variable check_password_hash : string -> string -> bool.

Implicit Types (st : app_state char vec) (rs : list (request char vec)).

(** X18. A client whose session does not carry the admin flag gets it only
    by an admin login with user name [admin] (up to surrounding whitespace)
    and password [admin]: no other request, in any order, sets it. *)
Theorem admin_flag_needs_admin_password st rs :
  session_admin (st_session st) <> Some true ->
  session_admin
    (st_session (serve isspace cosine_similarity dim argsort newline
                       generate_password_hash check_password_hash st rs)) = Some true ->
  admin_password_given rs = true.
Proof.
  revert st. unfold serve.
  induction rs as [|r rs IH]; intros st Hnot Hflag; simpl in *; [contradiction|].
  destruct (decide (session_admin
              (st_session (handle isspace cosine_similarity dim argsort newline
                                  generate_password_hash check_password_hash st r))
            = Some true)) as [Hnow|Hlater].
  - destruct (handle_admin_flag _ _ _ _ _ _ _ st r Hnow) as [Hwas|Hgiven];
      [contradiction|].
    simpl in Hgiven. rewrite orb_false_r in Hgiven. now rewrite Hgiven.
  - rewrite (IH _ Hlater Hflag). apply orb_true_r.
Qed.

(** X19. Starting from a session without a user, whatever the client sends,
    a user id in its session is the id of a document of
    [users_collection]: a sign-up or a login put it there. *)
Theorem authenticated_user_is_registered st rs (user_id : string) :
  session_user_id (st_session st) = None ->
  session_user_id
    (st_session (serve isspace cosine_similarity dim argsort newline
                       generate_password_hash check_password_hash st rs)) =
    Some user_id ->
  exists d,
    d ∈ st_users (serve isspace cosine_similarity dim argsort newline
                        generate_password_hash check_password_hash st rs) /\
    doc_id d = user_id.
Proof.
  intros Hnone.
  assert (Hreg : session_registered st) by (intros uid; congruence).
  clear Hnone. revert st Hreg. unfold serve.
  induction rs as [|r rs IH]; intros st Hreg; simpl.
  - apply Hreg.
  - apply IH. now apply handle_session_registered.
Qed.

(** X20. A client that never signs up or logs in cannot change
    [user_pdf_data]: whatever uploads, chats, logouts and admin requests it
    sends, the store stays as it was. *)
Theorem anonymous_client_leaves_store st rs :
  session_user_id (st_session st) = None ->
  stays_anonymous rs = true ->
  st_store (serve isspace cosine_similarity dim argsort newline
                  generate_password_hash check_password_hash st rs) = st_store st.
Proof.
  revert st. unfold serve.
  induction rs as [|r rs IH]; intros st Hanon Hrs; simpl in *; [reflexivity|].
  apply andb_prop in Hrs as [Hr Hrs].
  destruct (handle_anonymous isspace cosine_similarity dim argsort newline
              generate_password_hash check_password_hash st r Hanon) as [Hstill Hsame].
  { simpl. now rewrite Hr. }
  rewrite IH by assumption. exact Hsame.
Qed.

(** X21. A logout ends the user session and the admin session together:
    after it, uploads and chats are refused with 401 and leave the store
    alone, admin routes are refused with 403, and the entry of the user who
    logged out (with a non-empty id) is gone. *)
Theorem logout_route_ends_sessions (session : session_data)
    (s : gmap string (pdf_data char vec)) (file : option (pdf_upload char))
    (reply reply' : provider_reply vec) (query : list char) :
  upload_pdf_route isspace dim newline (logout_route session s).1
                   (logout_route session s).2 file reply =
    ((logout_route session s).2, Rejected 401) /\
  pdf_chat_route cosine_similarity dim argsort (logout_route session s).1
                 (logout_route session s).2 query reply' =
    ((logout_route session s).2, Rejected 401) /\
  require_admin (logout_route session s).1 tt = Rejected 403 /\
  (forall u, session_user_id session = Some u -> u <> "" ->
             (logout_route session s).2 !! u = None).
Proof.
  repeat split. intros u Hu Hne. unfold logout_route. cbn [snd]. rewrite Hu.
  unfold logout. destruct (String.eqb_spec u ""); [contradiction|]. simpl.
  case_bool_decide as Hin; [apply lookup_delete_eq|].
  now apply eq_None_not_Some.
Qed.
End ClientExtras.

Lemma signup_then_login_witness :
  let signed := signup sample_hash empty_session [] " ann " "ann@example.org"
                       "secret1" "id-1" "s1" 100 in
  (signed = (signed.1.1, signed.1.2, SignedUp "id-1" "ann") /\
   sample_check (sample_hash "secret1" "s1") "secret1" = true /\
   strip "ann  " = strip " ann ") /\
  "id-1" = "id-1" /\ "ann" = strip " ann " /\
  login sample_check alice_session (signups sample_hash signed.1.2 [ben_signup])
        "ann  " "secret1" =
  (Session (Some "id-1") (Some "ann") None None, LoggedIn "id-1" "ann").
Proof.
  intros signed. split; [repeat split|].
  apply (signup_then_login sample_hash sample_check empty_session signed.1.1
           [] signed.1.2 " ann " "ann@example.org" "secret1" "id-1" "s1" 100
           "id-1" "ann" [ben_signup] alice_session "ann  "); reflexivity.
Defined.

Lemma admin_flag_needs_admin_password_witness :
  let final := serve ascii_isspace dot vec_dim insertion_argsort newline_ascii sample_hash sample_check
                     (AppState empty_session [] ∅) member_requests in
  (session_admin empty_session <> Some true /\
   session_admin (st_session final) = Some true) /\
  admin_password_given member_requests = true.
Proof.
  intros final. split; [split; [discriminate | reflexivity]|].
  apply (admin_flag_needs_admin_password ascii_isspace dot vec_dim insertion_argsort newline_ascii
           sample_hash sample_check (AppState empty_session [] ∅) member_requests);
    [discriminate | reflexivity].
Defined.

Lemma authenticated_user_is_registered_witness :
  let final := serve ascii_isspace dot vec_dim insertion_argsort newline_ascii sample_hash sample_check
                     (AppState empty_session [] ∅) member_requests in
  session_user_id (st_session final) = Some "id-1" /\
  exists d, d ∈ st_users final /\ doc_id d = "id-1".
Proof.
  intros final. split; [reflexivity|].
  apply (authenticated_user_is_registered ascii_isspace dot vec_dim insertion_argsort newline_ascii
           sample_hash sample_check (AppState empty_session [] ∅) member_requests
           "id-1"); reflexivity.
Defined.

Lemma anonymous_client_leaves_store_witness :
  (session_user_id empty_session = None /\
   stays_anonymous visitor_requests = true) /\
  st_store (serve ascii_isspace dot vec_dim insertion_argsort newline_ascii sample_hash sample_check
                  (AppState empty_session [] alice_store) visitor_requests) =
  alice_store.
Proof.
  split; [split; reflexivity|].
  apply (anonymous_client_leaves_store ascii_isspace dot vec_dim insertion_argsort newline_ascii
           sample_hash sample_check (AppState empty_session [] alice_store)
           visitor_requests); reflexivity.
Defined.

Lemma logout_route_ends_sessions_witness :
  let after := logout_route alice_session alice_store in
  ("alice" <> "") /\
  upload_pdf_route ascii_isspace vec_dim newline_ascii after.1 after.2
    (Some (PdfUpload "b.pdf" (Some [text_of "page"]))) (Data [[1; 0]%Q]) =
    (after.2, Rejected 401) /\
  after.2 !! "alice" = None.
Proof.
  intros after.
  destruct (logout_route_ends_sessions ascii_isspace dot vec_dim insertion_argsort newline_ascii
              alice_session alice_store
              (Some (PdfUpload "b.pdf" (Some [text_of "page"])))
              (Data [[1; 0]%Q]) (Data [[1; 0]%Q]) (text_of "q"))
    as (Hupload & _ & _ & Hgone).
  split; [discriminate|]. split; [exact Hupload|].
  apply Hgone; [reflexivity | discriminate].
Defined.
